(** * ALuxtronik: the asynchronous Luxtronik heat-pump session

    A shallow embedding of [luxtronik/aluxtronik.py]: the wire codec
    ([struct.pack] / [struct.unpack] with the formats [">i"] and [">b"]),
    the two stream handles of the session, the pending-write queue and the
    write-then-read cycle.

    Conventions of the model
    - A Python [int] is a [Z]; the 32-bit wrap-around of the wire format is
      written out with [Z.land], [Z.shiftr], [Z.shiftl] and [Z.lor].
    - A coroutine is a computation in the monad [M]: it takes the session
      and returns either a value or a raised exception, together with the
      session as the coroutine left it.  An exception does not undo the
      mutations made before it, exactly as in Python.
    - The inbound side of the TCP connection is the list of bytes the
      controller will deliver before it closes the stream.
    - The outbound side is the [transport] of the writer: it stays up, or
      it breaks after some more buffers, or it is already lost; [drain] and
      [wait_closed] raise accordingly.
    - Every externally visible action (a buffer handed to the writer, a
      block obtained from the reader, the settle sleep, a call of one of the
      two [parse] sinks, a warning) is appended to the session's [trace].
    - The session is driven by a single task; the [asyncio.Lock] of
      [_read_after_write] is therefore transparent and is not modelled. *)

From Stdlib Require Import String ZArith List Bool Lia.
From Stdlib Require Import Strings.Byte.
Import ListNotations.

Local Open Scope Z_scope.

(** ** Python's [struct] module, formats [">i"] and [">b"] *)

Module Struct.

(** The exceptions the session can raise. [StructError] is [struct.error],
    [IncompleteReadError] is [asyncio.IncompleteReadError] (the stream
    ended before [readexactly] had its bytes), [AttributeError] is what
    a method call on a handle that is [None] raises, and the others are the
    [OSError]s that [drain] and [wait_closed] raise on a connection that is
    lost: the subclasses Python has for four error numbers, and [OSError]
    itself with any other error number. *)
Inductive PyExc : Type :=
| StructError
| IncompleteReadError
| AttributeError
| ConnectionResetError
| BrokenPipeError
| ConnectionAbortedError
| TimeoutError
| OSErrorErrno (errno : Z).

Inductive Result (A : Type) : Type :=
| Ok (a : A)
| Raise (e : PyExc).

Arguments Ok {A} a.
Arguments Raise {A} e.

Definition byte_of_Z (z : Z) : byte :=
  match Byte.of_N (Z.to_N (Z.land z 255)) with
  | Some b => b
  | None => x00
  end.

Definition Z_of_byte (b : byte) : Z := Z.of_N (Byte.to_N b).

(** The range check of the ['i'] format:
    [-2147483648 <= number <= 2147483647]. *)
Definition int32b (v : Z) : bool :=
  (-2147483648 <=? v) && (v <=? 2147483647).

(** Big-endian two's-complement image of [v] on four bytes. *)
Definition be32 (v : Z) : list byte :=
  [ byte_of_Z (Z.shiftr v 24); byte_of_Z (Z.shiftr v 16);
    byte_of_Z (Z.shiftr v 8);  byte_of_Z v ].

(** The Python objects that can reach the codec: the literals of the
    session and whatever the caller stored in the pending-write queue. *)
Inductive PyVal : Type :=
| PyInt (n : Z)
| PyBool (b : bool)
| PyStr (s : string)
| PyNone.

(** [isinstance(v, int)]; [bool] is a subclass of [int]. *)
Definition isinstance_int (v : PyVal) : bool :=
  match v with
  | PyInt _ | PyBool _ => true
  | PyStr _ | PyNone => false
  end.

(** The integer an ['i'] field takes from its argument ([__index__]). *)
Definition index_of (v : PyVal) : option Z :=
  match v with
  | PyInt n => Some n
  | PyBool b => Some (if b then 1 else 0)
  | PyStr _ | PyNone => None
  end.

(** One ['i'] field: an argument that is not an integer, or an integer
    out of range, raises [struct.error]. *)
Definition pack_i (v : PyVal) : Result (list byte) :=
  match index_of v with
  | Some n => if int32b n then Ok (be32 n) else Raise StructError
  | None => Raise StructError
  end.

(** [struct.pack(">" + "i" * len(ints), *ints)]: nothing is produced
    when one of the fields fails. *)
Fixpoint pack (ints : list PyVal) : Result (list byte) :=
  match ints with
  | [] => Ok []
  | v :: rest =>
      match pack_i v with
      | Ok field =>
          match pack rest with
          | Ok data => Ok (field ++ data)
          | Raise e => Raise e
          end
      | Raise e => Raise e
      end
  end.

(** [struct.unpack(">i", data)[0]]: a buffer that is not exactly four
    bytes long raises [struct.error]. *)
Definition unpack_i (data : list byte) : Result Z :=
  match data with
  | [b3; b2; b1; b0] =>
      let u := Z.lor (Z.shiftl (Z_of_byte b3) 24)
                 (Z.lor (Z.shiftl (Z_of_byte b2) 16)
                    (Z.lor (Z.shiftl (Z_of_byte b1) 8) (Z_of_byte b0))) in
      Ok (if 2147483648 <=? u then u - 4294967296 else u)
  | _ => Raise StructError
  end.


End Struct.

Import Struct.

(** ** The session object *)

(** What an observer of the session sees, in order. *)
Inductive Event : Type :=
| EvSend (data : list byte)            (* writer.write(data); drain() *)
| EvRecv (data : list byte)            (* a block returned by readexactly *)
| EvSleep (seconds : Z)                (* asyncio.sleep(seconds) *)
| EvWarning (index value : PyVal)      (* LOGGER.warning of a skipped entry *)
| EvParametersParse (data : list Z)    (* self.parameters.parse(data) *)
| EvCalculationsParse (data : list Z)  (* self.calculations.parse(data) *)
| EvClose.                             (* writer.close(); wait_closed() *)

(** The writing end of the connection. *)
Inductive StreamWriter : Type :=
| Writer (host : string) (port : Z).

(** The error of the socket with which a connection is lost. *)
Inductive OSError : Type :=
| ECONNRESET
| EPIPE
| ECONNABORTED
| ETIMEDOUT
| Errno (errno : Z).

Definition os_exception (e : OSError) : PyExc :=
  match e with
  | ECONNRESET => ConnectionResetError
  | EPIPE => BrokenPipeError
  | ECONNABORTED => ConnectionAbortedError
  | ETIMEDOUT => TimeoutError
  | Errno errno => OSErrorErrno errno
  end.

(** The transport under the writer, as the peer and the network decide
    it: the connection stays up; or it is up for [after] more buffers and
    the next one meets a dead socket; or [connection_lost(exc)] has already
    been called. *)
Inductive Transport : Type :=
| Up
| Breaks (after : nat) (exc : OSError)
| Lost (exc : OSError).

(** An [ALuxtronik] instance.  [_reader] holds the bytes the peer delivers
    before the stream ends; [queue] is [self.parameters.queue], a [dict] in
    its insertion order ([Parameters] itself is an external collaborator;
    the session only iterates over this attribute and rebinds it). *)
Record ALuxtronik : Type := mkALuxtronik {
  _host : string;
  _port : Z;
  _safe : bool;
  _reader : option (list byte);
  _writer : option StreamWriter;
  queue : list (PyVal * PyVal);
  trace : list Event;
  transport : Transport
}.

Definition set_reader (r : option (list byte)) (s : ALuxtronik) : ALuxtronik :=
  mkALuxtronik (_host s) (_port s) (_safe s) r (_writer s) (queue s) (trace s)
    (transport s).

Definition set_writer (w : option StreamWriter) (s : ALuxtronik) : ALuxtronik :=
  mkALuxtronik (_host s) (_port s) (_safe s) (_reader s) w (queue s) (trace s)
    (transport s).

Definition set_queue (q : list (PyVal * PyVal)) (s : ALuxtronik) : ALuxtronik :=
  mkALuxtronik (_host s) (_port s) (_safe s) (_reader s) (_writer s) q (trace s)
    (transport s).

Definition log (evs : list Event) (s : ALuxtronik) : ALuxtronik :=
  mkALuxtronik (_host s) (_port s) (_safe s) (_reader s) (_writer s) (queue s)
    (trace s ++ evs) (transport s).

Definition set_transport (t : Transport) (s : ALuxtronik) : ALuxtronik :=
  mkALuxtronik (_host s) (_port s) (_safe s) (_reader s) (_writer s) (queue s)
    (trace s) t.

(** ** Coroutines: state and exceptions *)

Definition M (A : Type) : Type := ALuxtronik -> Result A * ALuxtronik.

Definition ret {A : Type} (a : A) : M A := fun s => (Ok a, s).

Definition bind {A B : Type} (m : M A) (k : A -> M B) : M B :=
  fun s =>
    match m s with
    | (Ok a, s') => k a s'
    | (Raise e, s') => (Raise e, s')
    end.

Declare Scope coroutine_scope.
Delimit Scope coroutine_scope with coroutine.
Notation "x <- m ;; k" := (bind m (fun x => k))
  (at level 61, m at next level, right associativity) : coroutine_scope.
Notation "m ;; k" := (bind m (fun _ => k))
  (at level 61, right associativity) : coroutine_scope.
Local Open Scope coroutine_scope.

(** A pure library call that may raise. *)
Definition lift {A : Type} (r : Result A) : M A := fun s => (r, s).

(** [try: body / except struct.error: handler]. *)
Definition try_except_struct_error {A : Type} (body handler : M A) : M A :=
  fun s =>
    match body s with
    | (Raise StructError, s') => handler s'
    | other => other
    end.

Definition emit (e : Event) : M unit := fun s => (Ok tt, log [e] s).

(** [self._reader.readexactly(n)]: on a short stream the buffer is emptied
    and [IncompleteReadError] is raised.  The reader is its buffer and the
    end of the stream; it does not look at the [transport], whose loss the
    session meets in [drain], the call that precedes every receive of a
    cycle. *)
Definition readexactly (n : nat) : M (list byte) :=
  fun s =>
    match _reader s with
    | None => (Raise AttributeError, s)
    | Some buf =>
        if (n <=? length buf)%nat
        then (Ok (firstn n buf),
              log [EvRecv (firstn n buf)] (set_reader (Some (skipn n buf)) s))
        else (Raise IncompleteReadError, set_reader (Some []) s)
    end.

(** [self._writer.write(data)]: the buffer is handed to the writer, which
    never raises by itself. *)
Definition writer_write (data : list byte) : M unit :=
  fun s =>
    match _writer s with
    | None => (Raise AttributeError, s)
    | Some _ => (Ok tt, log [EvSend data] s)
    end.

(** [await self._writer.drain()]: on a dead socket the connection is lost
    and [ConnectionResetError] is raised; once it is lost, the error of the
    socket is raised. *)
Definition writer_drain : M unit :=
  fun s =>
    match _writer s with
    | None => (Raise AttributeError, s)
    | Some _ =>
        match transport s with
        | Up => (Ok tt, s)
        | Breaks (S after) exc => (Ok tt, set_transport (Breaks after exc) s)
        | Breaks O exc => (Raise ConnectionResetError, set_transport (Lost exc) s)
        | Lost exc => (Raise (os_exception exc), s)
        end
    end.

Definition WAIT_TIME_AFTER_PARAMETER_WRITE : Z := 1.

(** Modelled from the spec: [Parameters.parse] of [luxtronik.parameters],
    which is not part of this file, is an opaque sink
    [parse(rawValues) -> void]; the call is recorded with its argument. *)
Definition parameters_parse (data : list Z) : M unit :=
  emit (EvParametersParse data).

(** Modelled from the spec: [Calculations.parse] of
    [luxtronik.calculations], an opaque sink like the one above. *)
Definition calculations_parse (data : list Z) : M unit :=
  emit (EvCalculationsParse data).

(** No connection yet; the fresh [Parameters(safe=...)] has nothing
    pending. *)
Definition __init__ (host : string) (port : Z) (safe : bool) : ALuxtronik :=
  mkALuxtronik host port safe None None [] [] Up.

(** [asyncio.open_connection]: [peer] is what the controller will deliver;
    the new connection is up. *)
Definition __aenter__ (peer : list byte) : M unit :=
  fun s =>
    (Ok tt,
     set_transport Up
       (set_writer (Some (Writer (_host s) (_port s)))
          (set_reader (Some peer) s))).

(** [self._writer.close()] followed by [await self._writer.wait_closed()]:
    on a connection that was lost, [wait_closed] raises the error of the
    socket. *)
Definition writer_close : M unit :=
  fun s =>
    match transport s with
    | Lost exc => (Raise (os_exception exc), log [EvClose] s)
    | Up | Breaks _ _ => (Ok tt, log [EvClose] s)
    end.

Definition __aexit__ : M unit :=
  (fun s =>
     match _writer s with
     | Some _ => writer_close s
     | None => (Ok tt, s)
     end) ;;
  (fun s => (Ok tt, set_writer None (set_reader None s))).

Definition _send_ints (ints : list PyVal) : M unit :=
  data <- lift (pack ints) ;;
  writer_write data ;;
  writer_drain.

Definition _recv_int : M Z :=
  data <- readexactly 4 ;;
  value <- lift (unpack_i data) ;;
  ret value.


(** The number of turns of [for _ in range(start, stop)]: none when
    [stop <= start]. *)
Definition range_turns (start stop : Z) : nat := Z.to_nat (stop - start).

(** The body of the element loop of the two array readers, [turns] times:
    [try: val = await self._recv_int(); data.append(val)
     except struct.error: (debug log)]. *)
Fixpoint recv_elements (turns : nat) (data : list Z) : M (list Z) :=
  match turns with
  | O => ret data
  | S turns' =>
      data' <- try_except_struct_error
                 (val <- _recv_int ;; ret (data ++ [val]))
                 (ret data) ;;
      recv_elements turns' data'
  end.

Definition _read_parameters : M unit :=
  _send_ints [PyInt 3003; PyInt 0] ;;
  cmd <- _recv_int ;;
  length <- _recv_int ;;
  data <- recv_elements (range_turns 0 length) [] ;;
  parameters_parse data.

Definition _read_calculations : M unit :=
  _send_ints [PyInt 3004; PyInt 0] ;;
  cmd <- _recv_int ;;
  stat <- _recv_int ;;
  length <- _recv_int ;;
  data <- recv_elements (range_turns 0 length) [] ;;
  calculations_parse data.

Definition _read : M unit :=
  _read_parameters ;;
  _read_calculations.

(** The loop of [_write] over [self.parameters.queue.items()]. *)
Fixpoint write_items (items : list (PyVal * PyVal)) : M unit :=
  match items with
  | [] => ret tt
  | (index, value) :: rest =>
      if negb (isinstance_int index) || negb (isinstance_int value) then
        emit (EvWarning index value) ;;
        write_items rest
      else
        _send_ints [PyInt 3002; index; value] ;;
        cmd <- _recv_int ;;
        val <- _recv_int ;;
        write_items rest
  end.

(** [self.parameters.queue = {}]. *)
Definition flush_queue : M unit := fun s => (Ok tt, set_queue [] s).

Definition _write : M unit :=
  fun s =>
    (write_items (queue s) ;;
     flush_queue) s.

Definition _read_after_write (write : bool) : M unit :=
  (if write then
     _write ;;
     emit (EvSleep WAIT_TIME_AFTER_PARAMETER_WRITE)
   else ret tt) ;;
  _read.

Definition read : M unit := _read_after_write false.

Definition write : M unit := _read_after_write true.

(** ** Vocabulary of the statements *)

Definition int32 (v : Z) : Prop := int32b v = true.

(** The bytes the controller puts on the stream for a list of integers. *)
Definition wire (vs : list Z) : list byte := concat (map be32 vs).

(** The blocks the session obtains when it reads those integers one by one. *)
Definition recvs (vs : list Z) : list Event :=
  map (fun v => EvRecv (be32 v)) vs.

(** The command word of an outgoing buffer. *)
Definition command_of (data : list byte) : option Z :=
  match unpack_i (firstn 4 data) with
  | Ok cmd => Some cmd
  | Raise _ => None
  end.

Definition sends_command (cmd : Z) (e : Event) : bool :=
  match e with
  | EvSend data =>
      match command_of data with
      | Some c => c =? cmd
      | None => false
      end
  | _ => false
  end.

(** The buffers handed to the writer, in order. *)
Fixpoint sent (evs : list Event) : list (list byte) :=
  match evs with
  | [] => []
  | EvSend data :: rest => data :: sent rest
  | _ :: rest => sent rest
  end.

(** The test of [_write] on a queue entry. *)
Definition well_formed (entry : PyVal * PyVal) : bool :=
  isinstance_int (fst entry) && isinstance_int (snd entry).

(** The frame of a queue entry, as [_write] asks [_send_ints] for it. *)
Definition frame_of (entry : PyVal * PyVal) : Result (list byte) :=
  pack [PyInt 3002; fst entry; snd entry].

(** [s'] is [s] after some more events, all satisfying [P], with the
    pending-write queue and the writer handle untouched. *)
Definition extends (P : Event -> Prop) (s s' : ALuxtronik) : Prop :=
  queue s' = queue s /\ _writer s' = _writer s /\
  exists evs, trace s' = trace s ++ evs /\ Forall P evs.

Definition only_emits {A : Type} (P : Event -> Prop) (m : M A) : Prop :=
  forall s, extends P s (snd (m s)).

Definition is_warning (e : Event) : bool :=
  match e with
  | EvWarning _ _ => true
  | _ => false
  end.

(** A trace with the warnings taken out: what goes over the connection,
    the sleeps and the sink calls. *)
Definition without_warnings (evs : list Event) : list Event :=
  filter (fun e => negb (is_warning e)) evs.

(** Two sessions that an observer of the connection cannot tell apart. *)
Definition agree (s t : ALuxtronik) : Prop :=
  _reader s = _reader t /\ _writer s = _writer t /\
  transport s = transport t /\
  without_warnings (trace s) = without_warnings (trace t).

Definition respects {A : Type} (m m' : M A) : Prop :=
  forall s t, agree s t ->
    fst (m s) = fst (m' t) /\ agree (snd (m s)) (snd (m' t)).

(** A queue of Python integers. *)
Definition as_queue (entries : list (Z * Z)) : list (PyVal * PyVal) :=
  map (fun e => (PyInt (fst e), PyInt (snd e))) entries.

Definition int32_pair (p : Z * Z) : Prop := int32 (fst p) /\ int32 (snd p).

(** The controller's answers to a write phase, as it puts them on the
    stream: two integers per frame. *)
Definition answers (replies : list (Z * Z)) : list Z :=
  flat_map (fun r => [fst r; snd r]) replies.

(** The trace of a write phase that goes through: per entry the frame,
    then the two integers read back. *)
Fixpoint exchange (entries replies : list (Z * Z)) : list Event :=
  match entries, replies with
  | (index, value) :: entries', (cmd, val) :: replies' =>
      EvSend (wire [3002; index; value])
        :: EvRecv (be32 cmd) :: EvRecv (be32 val)
        :: exchange entries' replies'
  | _, _ => []
  end.

(** A session on an open connection: [q] is pending and the controller
    will deliver [peer] before it closes the stream. *)
Definition connected (q : list (PyVal * PyVal)) (peer : list byte) : ALuxtronik :=
  snd (__aenter__ peer (set_queue q (__init__ "heatpump" 8889 true))).

(** An event of the calculations read: its request or its sink call. *)
Definition is_calculations (e : Event) : bool :=
  match e with
  | EvCalculationsParse _ => true
  | _ => sends_command 3004 e
  end.

(** No event of the calculations read before the parameter sink was called. *)
Fixpoint parameters_first (evs : list Event) : bool :=
  match evs with
  | [] => true
  | EvParametersParse _ :: _ => true
  | e :: rest => negb (is_calculations e) && parameters_first rest
  end.

Definition not_calculations (e : Event) : Prop := is_calculations e = false.

Definition parameters_parsed (e : Event) : Prop :=
  exists data, e = EvParametersParse data.

(** [m] appends events satisfying [P] and, when it returns, has appended
    an event satisfying [Q] last. *)
Definition emits_then {A : Type} (P Q : Event -> Prop) (m : M A) : Prop :=
  forall s,
    extends P s (snd (m s)) /\
    (forall a, fst (m s) = Ok a ->
       exists evs e, trace (snd (m s)) = trace s ++ evs ++ [e] /\
                     Forall P evs /\ Q e).

(** *** Sessions used as concrete inputs *)

(** The controller declares two parameters and delivers one. *)
Definition short_parameters : ALuxtronik :=
  connected [] (wire [3003; 2; 42]).

Definition short_calculations : ALuxtronik :=
  connected [] (wire [3004; 0; 2; 42]).

(** The controller declares a length of [-1]. *)
Definition negative_parameters : ALuxtronik :=
  connected [] (wire [3003; -1]).

Definition negative_calculations : ALuxtronik :=
  connected [] (wire [3004; 0; -1]).

(** [{2147483648: 0}] is pending and the controller is ready to answer. *)
Definition oversized_entry : ALuxtronik :=
  connected [(PyInt 2147483648, PyInt 0)] (wire [3002; 0]).

(** [{1: 5}] is pending and the controller closes without answering. *)
Definition unanswered_entry : ALuxtronik :=
  connected [(PyInt 1, PyInt 5)] [].

(** A session after [__aexit__]. *)
Definition closed_session : ALuxtronik :=
  snd (__aexit__ (connected [] [])).

(** [{"x": 1, 1: 5}] is pending and the controller closes without
    answering. *)
Definition skipped_then_unanswered : ALuxtronik :=
  connected [(PyStr "x", PyInt 1); (PyInt 1, PyInt 5)] [].

(** An open session whose connection was lost with a broken pipe. *)
Definition lost_connection : ALuxtronik :=
  set_transport (Lost EPIPE) (connected [] []).

(** A closed session with [{"x": 1}] pending. *)
Definition closed_with_malformed : ALuxtronik :=
  snd (__aexit__ (connected [(PyStr "x", PyInt 1)] [])).

(** [{5: 10}] is pending; the controller acknowledges the write, then
    reports the parameters [[42; 43]] and the calculation [[99]]. *)
Definition end_to_end : ALuxtronik :=
  connected [(PyInt 5, PyInt 10)]
    (wire [3002; 10] ++ wire [3003; 2; 42; 43] ++ wire [3004; 0; 1; 99]).

(** *** Vocabulary of the further properties *)

(** What a transport is after it has taken one more buffer, if it takes
    it: the cases in which [drain] returns. *)
Definition after_send (t : Transport) : option Transport :=
  match t with
  | Up => Some Up
  | Breaks (S after) exc => Some (Breaks after exc)
  | Breaks O _ | Lost _ => None
  end.


(** Both handles are set: a connection is open. *)
Definition is_open (s : ALuxtronik) : Prop :=
  (exists buf, _reader s = Some buf) /\ (exists w, _writer s = Some w).

(** From a session satisfying [I], [m] leads to a session satisfying [I]
    and raises only exceptions satisfying [E]. *)
Definition guarantee {A : Type}
    (I : ALuxtronik -> Prop) (E : PyExc -> Prop) (m : M A) : Prop :=
  forall s, I s ->
    I (snd (m s)) /\ (forall e, fst (m s) = Raise e -> E e).

(** Whenever [m] raises [e], it leaves a session satisfying [Q e]. *)
Definition raise_post {A : Type}
    (Q : PyExc -> ALuxtronik -> Prop) (m : M A) : Prop :=
  forall s e, fst (m s) = Raise e -> Q e (snd (m s)).

(** The stream has ended and nothing is left to read. *)
Definition drained (e : PyExc) (s : ALuxtronik) : Prop :=
  e = IncompleteReadError -> _reader s = Some [].

(** Every well-formed entry has a frame. *)
Definition packable (entry : PyVal * PyVal) : Prop :=
  exists data, frame_of entry = Ok data.

(** Three bytes and the end of the stream. *)
Definition three_bytes : ALuxtronik :=
  connected [] [x00; x00; x0b].

(** ** Bytes and 32-bit words *)

Section Words.

Lemma Z_of_byte_range (b : byte) : 0 <= Z_of_byte b < 256.
Proof.
  unfold Z_of_byte. pose proof (Byte.to_N_bounded b) as H.
  lia.
Qed.

Lemma Z_of_byte_of_Z (z : Z) : Z_of_byte (byte_of_Z z) = Z.land z 255.
Proof.
  unfold Z_of_byte, byte_of_Z.
  assert (Hr : 0 <= Z.land z 255 < 256).
  { change 255 with (Z.ones 8). rewrite Z.land_ones by lia.
    apply Z.mod_pos_bound. reflexivity. }
  destruct (Byte.of_N (Z.to_N (Z.land z 255))) as [b|] eqn:E.
  - apply Byte.to_of_N in E. rewrite E. lia.
  - apply Byte.of_N_None_iff in E. lia.
Qed.

Lemma byte_of_Z_of_byte (b : byte) : byte_of_Z (Z_of_byte b) = b.
Proof. destruct b; reflexivity. Qed.

Lemma be32_length (v : Z) : length (be32 v) = 4%nat.
Proof. reflexivity. Qed.

Lemma int32b_spec (v : Z) :
  int32b v = true <-> -2147483648 <= v <= 2147483647.
Proof. unfold int32b. rewrite andb_true_iff, !Z.leb_le. tauto. Qed.

(** Gluing a high part onto [n] low bits is an addition. *)
Lemma lor_shiftl_add (hi lo n : Z) :
  0 <= n -> 0 <= lo < 2 ^ n ->
  Z.lor (Z.shiftl hi n) lo = hi * 2 ^ n + lo.
Proof.
  intros Hn Hlo.
  rewrite <- Z.shiftl_mul_pow2 by assumption.
  assert (Hd : Z.land (Z.shiftl hi n) lo = 0).
  { apply Z.bits_inj'; intros k Hk.
    rewrite Z.land_spec, Z.bits_0.
    destruct (Z.lt_ge_cases k n) as [Hlt|Hge].
    - rewrite Z.shiftl_spec_low by assumption. reflexivity.
    - replace (Z.testbit lo k) with false; [apply andb_false_r|].
      symmetry. destruct (Z.eq_dec lo 0) as [->|Hz]; [apply Z.bits_0|].
      apply Z.bits_above_log2; [lia|].
      apply Z.log2_lt_pow2; [lia|].
      apply Z.lt_le_trans with (2 ^ n); [lia|].
      apply Z.pow_le_mono_r; lia. }
  rewrite <- Z.lxor_lor by assumption.
  symmetry. apply Z.add_nocarry_lxor. assumption.
Qed.

Lemma unpack_be32 (v : Z) :
  int32b v = true -> unpack_i (be32 v) = Ok v.
Proof.
  intros Hv. apply int32b_spec in Hv.
  unfold be32, unpack_i. rewrite !Z_of_byte_of_Z.
  change 255 with (Z.ones 8).
  rewrite !Z.land_ones, !Z.shiftr_div_pow2 by lia.
  assert (B : forall x, 0 <= x mod 2 ^ 8 < 2 ^ 8)
    by (intros; apply Z.mod_pos_bound; lia).
  pose proof (B v) as B0. pose proof (B (v / 2 ^ 8)) as B1.
  pose proof (B (v / 2 ^ 16)) as B2. pose proof (B (v / 2 ^ 24)) as B3.
  change (2 ^ 8) with 256 in *. change (2 ^ 16) with 65536 in *.
  change (2 ^ 24) with 16777216 in *.
  rewrite (lor_shiftl_add _ (v mod 256) 8)
    by (change (2 ^ 8) with 256; lia).
  rewrite (lor_shiftl_add _ _ 16) by (change (2 ^ 16) with 65536; lia).
  rewrite (lor_shiftl_add _ _ 24) by (change (2 ^ 24) with 16777216; lia).
  change (2 ^ 8) with 256. change (2 ^ 16) with 65536.
  change (2 ^ 24) with 16777216.
  match goal with
  | |- context [2147483648 <=? ?u] => destruct (Z.leb_spec 2147483648 u)
  end; f_equal; Z.div_mod_to_equations; lia.
Qed.

End Words.

(** ** Elementary facts about the session state *)

Section StateLemmas.

Variable s : ALuxtronik.

Lemma log_log (e1 e2 : list Event) : log e2 (log e1 s) = log (e1 ++ e2) s.
Proof. unfold log; simpl. now rewrite app_assoc. Qed.

Lemma log_nil : log [] s = s.
Proof. unfold log. rewrite app_nil_r. now destruct s. Qed.

Lemma set_reader_log (r : option (list byte)) (e : list Event) :
  set_reader r (log e s) = log e (set_reader r s).
Proof. reflexivity. Qed.

Lemma set_reader_twice (r1 r2 : option (list byte)) :
  set_reader r2 (set_reader r1 s) = set_reader r2 s.
Proof. reflexivity. Qed.

Lemma set_reader_same (r : option (list byte)) :
  _reader s = r -> set_reader r s = s.
Proof. intros <-. now destruct s. Qed.

Lemma set_queue_log (q : list (PyVal * PyVal)) (e : list Event) :
  set_queue q (log e s) = log e (set_queue q s).
Proof. reflexivity. Qed.

Lemma set_queue_set_reader (q : list (PyVal * PyVal)) (r : option (list byte)) :
  set_queue q (set_reader r s) = set_reader r (set_queue q s).
Proof. reflexivity. Qed.

Lemma set_transport_same (t : Transport) :
  transport s = t -> set_transport t s = s.
Proof. intros <-. now destruct s. Qed.

Lemma set_transport_log (t : Transport) (e : list Event) :
  set_transport t (log e s) = log e (set_transport t s).
Proof. reflexivity. Qed.

Lemma set_reader_set_transport (r : option (list byte)) (t : Transport) :
  set_reader r (set_transport t s) = set_transport t (set_reader r s).
Proof. reflexivity. Qed.

End StateLemmas.

Create Rewrite HintDb session.
#[local] Hint Rewrite log_log set_reader_log set_reader_twice : session.
#[local] Hint Rewrite set_transport_log set_reader_set_transport : session.

Ltac session_norm := autorewrite with session; simpl.

(** ** The codec *)

Section Codec.

Lemma pack_i_int32 (v : Z) : int32 v -> pack_i (PyInt v) = Ok (be32 v).
Proof. unfold int32, pack_i; simpl. now intros ->. Qed.

Lemma pack_ints (vs : list Z) :
  Forall int32 vs -> pack (map PyInt vs) = Ok (wire vs).
Proof.
  induction 1 as [|v vs Hv _ IH]; simpl; [reflexivity|].
  now rewrite (pack_i_int32 v Hv), IH.
Qed.

Lemma pack_i_length (v : PyVal) (field : list byte) :
  pack_i v = Ok field -> length field = 4%nat.
Proof.
  unfold pack_i. destruct (index_of v) as [n|]; [|discriminate].
  destruct (int32b n); [|discriminate].
  intros [= <-]. apply be32_length.
Qed.

Lemma pack_length (ints : list PyVal) :
  forall data, pack ints = Ok data -> length data = (4 * length ints)%nat.
Proof.
  induction ints as [|v ints IH]; simpl; intros data.
  - now intros [= <-].
  - destruct (pack_i v) as [field|] eqn:Ef; [|discriminate].
    destruct (pack ints) as [tail|]; [|discriminate].
    intros [= <-]. rewrite length_app, (pack_i_length _ _ Ef), (IH tail eq_refl).
    lia.
Qed.

(** Four bytes always decode: [struct.unpack] has nothing to reject. *)
Lemma unpack_i_block (b : list byte) :
  length b = 4%nat -> exists v, unpack_i b = Ok v.
Proof.
  destruct b as [|b3 [|b2 [|b1 [|b0 [|? ?]]]]]; try discriminate.
  intros _. eexists. reflexivity.
Qed.

(** Packing raises nothing but [struct.error]. *)
Lemma pack_raises_struct_error (ints : list PyVal) (e : PyExc) :
  pack ints = Raise e -> e = StructError.
Proof.
  induction ints as [|v ints IH]; cbn [pack]; [discriminate|].
  unfold pack_i. destruct (index_of v) as [n|].
  - destruct (int32b n).
    + destruct (pack ints) as [data|e']; [discriminate|].
      intros [= <-]. now apply IH.
    + now intros [= <-].
  - now intros [= <-].
Qed.

Lemma wire_cons (v : Z) (vs : list Z) : wire (v :: vs) = be32 v ++ wire vs.
Proof. reflexivity. Qed.

Lemma wire_app (xs ys : list Z) : wire (xs ++ ys) = wire xs ++ wire ys.
Proof. unfold wire. now rewrite map_app, concat_app. Qed.

End Codec.

(** ** One step of each low-level helper *)

Section Helpers.

Variable s : ALuxtronik.

Lemma readexactly_block (n : nat) (b rest : list byte) :
  _reader s = Some (b ++ rest) -> length b = n ->
  readexactly n s = (Ok b, log [EvRecv b] (set_reader (Some rest) s)).
Proof.
  intros Hr <-. unfold readexactly. rewrite Hr.
  rewrite length_app.
  replace (length b <=? length b + length rest)%nat with true
    by (symmetry; apply Nat.leb_le; lia).
  rewrite firstn_app, Nat.sub_diag, firstn_all, app_nil_r.
  rewrite skipn_app, Nat.sub_diag, skipn_all. reflexivity.
Qed.

Lemma readexactly_short (n : nat) (buf : list byte) :
  _reader s = Some buf -> (length buf < n)%nat ->
  readexactly n s = (Raise IncompleteReadError, set_reader (Some []) s).
Proof.
  intros Hr Hlt. unfold readexactly. rewrite Hr.
  replace (n <=? length buf)%nat with false
    by (symmetry; apply Nat.leb_gt; lia).
  reflexivity.
Qed.

Lemma recv_int_ok (v : Z) (rest : list byte) :
  _reader s = Some (be32 v ++ rest) -> int32 v ->
  _recv_int s = (Ok v, log [EvRecv (be32 v)] (set_reader (Some rest) s)).
Proof.
  intros Hr Hv. unfold _recv_int, bind.
  rewrite (readexactly_block 4 (be32 v) rest Hr (be32_length v)).
  unfold lift. now rewrite (unpack_be32 v Hv).
Qed.

Lemma recv_int_short (buf : list byte) :
  _reader s = Some buf -> (length buf < 4)%nat ->
  _recv_int s = (Raise IncompleteReadError, set_reader (Some []) s).
Proof.
  intros Hr Hlt. unfold _recv_int, bind.
  now rewrite (readexactly_short 4 buf Hr Hlt).
Qed.

Lemma recv_int_closed :
  _reader s = None -> _recv_int s = (Raise AttributeError, s).
Proof.
  intros Hr. unfold _recv_int, bind, readexactly. now rewrite Hr.
Qed.

(** [_recv_int] never raises [struct.error]: [readexactly(4)] either
    delivers four bytes, which always decode, or raises itself. *)
Lemma recv_int_never_struct_error :
  fst (_recv_int s) <> Raise StructError.
Proof.
  unfold _recv_int, bind, readexactly.
  destruct (_reader s) as [buf|]; [|discriminate].
  destruct (4 <=? length buf)%nat eqn:E; [|discriminate].
  apply Nat.leb_le in E.
  destruct (unpack_i_block (firstn 4 buf)) as [v Hv].
  { rewrite length_firstn. lia. }
  unfold lift. rewrite Hv. discriminate.
Qed.

(** [_send_ints], case by case: the packing, then the handle, then the
    transport. *)
Lemma send_ints_run (ints : list PyVal) :
  _send_ints ints s
  = match pack ints with
    | Raise e => (Raise e, s)
    | Ok data =>
        match _writer s with
        | None => (Raise AttributeError, s)
        | Some _ => writer_drain (log [EvSend data] s)
        end
    end.
Proof.
  unfold _send_ints, bind, lift, writer_write.
  destruct (pack ints) as [data|e]; [|reflexivity].
  now destruct (_writer s).
Qed.

Lemma send_ints_ok (ints : list PyVal) (data : list byte) (w : StreamWriter) :
  _writer s = Some w -> transport s = Up -> pack ints = Ok data ->
  _send_ints ints s = (Ok tt, log [EvSend data] s).
Proof.
  intros Hw Hup Hp. rewrite send_ints_run, Hp, Hw.
  unfold writer_drain. cbn [_writer transport log]. now rewrite Hw, Hup.
Qed.

Lemma send_ints_takes
    (ints : list PyVal) (data : list byte) (w : StreamWriter) (t : Transport) :
  _writer s = Some w -> after_send (transport s) = Some t ->
  pack ints = Ok data ->
  _send_ints ints s = (Ok tt, set_transport t (log [EvSend data] s)).
Proof.
  intros Hw Ht Hp. rewrite send_ints_run, Hp, Hw.
  unfold writer_drain. cbn [_writer transport log]. rewrite Hw.
  destruct (transport s) as [|[|after] exc|exc] eqn:Hs; try discriminate;
    injection Ht as <-; [|reflexivity].
  f_equal. symmetry. now apply set_transport_same.
Qed.

Lemma send_ints_unpackable (ints : list PyVal) (e : PyExc) :
  pack ints = Raise e -> _send_ints ints s = (Raise e, s).
Proof. intros Hp. now rewrite send_ints_run, Hp. Qed.

Lemma send_ints_closed (ints : list PyVal) (data : list byte) :
  _writer s = None -> pack ints = Ok data ->
  _send_ints ints s = (Raise AttributeError, s).
Proof. intros Hw Hp. now rewrite send_ints_run, Hp, Hw. Qed.

(** A send that returns: the values packed, a writer was set and the
    transport took the buffer. *)
Lemma send_ints_inv (ints : list PyVal) (s' : ALuxtronik) :
  _send_ints ints s = (Ok tt, s') ->
  exists data w t,
    pack ints = Ok data /\ _writer s = Some w /\
    after_send (transport s) = Some t /\
    s' = set_transport t (log [EvSend data] s).
Proof.
  rewrite send_ints_run.
  destruct (pack ints) as [data|]; [|discriminate].
  destruct (_writer s) as [w|] eqn:Hw; [|discriminate].
  unfold writer_drain. cbn [_writer transport log]. rewrite Hw.
  destruct (transport s) as [|[|after] exc|exc] eqn:Ht; try discriminate;
    intros [= <-]; exists data, w; eexists;
    (split; [reflexivity|]); (split; [reflexivity|]);
    (split; [reflexivity|]).
  - symmetry. now apply set_transport_same.
  - reflexivity.
Qed.

Lemma recv_int_inv (s' : ALuxtronik) (v : Z) :
  _recv_int s = (Ok v, s') ->
  exists b rest,
    _reader s = Some (b ++ rest) /\ length b = 4%nat /\ unpack_i b = Ok v /\
    s' = log [EvRecv b] (set_reader (Some rest) s).
Proof.
  unfold _recv_int, bind, readexactly.
  destruct (_reader s) as [buf|]; [|discriminate].
  destruct (4 <=? length buf)%nat eqn:E; [|discriminate].
  apply Nat.leb_le in E. unfold lift, ret.
  destruct (unpack_i (firstn 4 buf)) as [v'|] eqn:Hv; [|discriminate].
  intros [= <- <-]. exists (firstn 4 buf), (skipn 4 buf).
  rewrite firstn_skipn, length_firstn.
  repeat split; try assumption; try reflexivity. lia.
Qed.

End Helpers.

(** ** The element loop and the two array readers *)

(** One [await self._recv_int()] of a straight-line coroutine, when the
    stream is known to start with the encoding of [v]. *)
Ltac recv_step v :=
  unfold bind at 1;
  match goal with
  | |- context [_recv_int ?st] =>
      erewrite (recv_int_ok st v);
      [ | cbn [_reader log set_reader set_transport];
          first [eassumption | reflexivity]
        | assumption ]
  end.

Section Arrays.

Lemma recv_elements_full (vs : list Z) :
  forall (acc : list Z) (s : ALuxtronik) (rest : list byte),
    Forall int32 vs -> _reader s = Some (wire vs ++ rest) ->
    recv_elements (length vs) acc s =
      (Ok (acc ++ vs), log (recvs vs) (set_reader (Some rest) s)).
Proof.
  induction vs as [|v vs IH]; intros acc s rest Hvs Hr.
  - simpl in *. unfold ret. rewrite app_nil_r, log_nil.
    now rewrite (set_reader_same s _ Hr).
  - inversion Hvs as [|? ? Hv Hvs']; subst.
    rewrite wire_cons, <- app_assoc in Hr.
    cbn [length recv_elements]. unfold bind at 1, try_except_struct_error.
    unfold bind at 1. rewrite (recv_int_ok s v _ Hr Hv). unfold ret.
    rewrite (IH (acc ++ [v]) _ rest Hvs') by reflexivity.
    session_norm. now rewrite <- app_assoc.
Qed.

Lemma recv_elements_short (vs : list Z) :
  forall (turns : nat) (acc : list Z) (s : ALuxtronik) (tail : list byte),
    Forall int32 vs -> (length vs < turns)%nat -> (length tail < 4)%nat ->
    _reader s = Some (wire vs ++ tail) ->
    recv_elements turns acc s =
      (Raise IncompleteReadError, log (recvs vs) (set_reader (Some []) s)).
Proof.
  induction vs as [|v vs IH]; intros turns acc s tail Hvs Hlt Htail Hr;
    (destruct turns as [|turns]; [simpl in Hlt; lia|]).
  - simpl in Hr. cbn [recv_elements]. unfold bind at 1, try_except_struct_error.
    unfold bind at 1. rewrite (recv_int_short s tail Hr Htail).
    now rewrite log_nil.
  - inversion Hvs as [|? ? Hv Hvs']; subst.
    rewrite wire_cons, <- app_assoc in Hr.
    cbn [recv_elements]. unfold bind at 1, try_except_struct_error.
    unfold bind at 1. rewrite (recv_int_ok s v _ Hr Hv). unfold ret.
    rewrite (IH turns (acc ++ [v]) _ tail Hvs'); simpl in *; try lia; try reflexivity.
    session_norm. reflexivity.
Qed.

Lemma range_turns_length (vs : list Z) :
  range_turns 0 (Z.of_nat (length vs)) = length vs.
Proof. unfold range_turns. lia. Qed.

Lemma range_turns_nonpositive (n : Z) : n <= 0 -> range_turns 0 n = O.
Proof. unfold range_turns. lia. Qed.

Lemma pack_3003 : pack [PyInt 3003; PyInt 0] = Ok (wire [3003; 0]).
Proof. reflexivity. Qed.

Lemma pack_3004 : pack [PyInt 3004; PyInt 0] = Ok (wire [3004; 0]).
Proof. reflexivity. Qed.

Variable s : ALuxtronik.
Variable w : StreamWriter.
Hypothesis Hw : _writer s = Some w.
Hypothesis Hup : transport s = Up.

Lemma read_parameters_ok (echo : Z) (vs : list Z) (rest : list byte) :
  int32 echo -> int32 (Z.of_nat (length vs)) -> Forall int32 vs ->
  _reader s = Some (wire (echo :: Z.of_nat (length vs) :: vs) ++ rest) ->
  _read_parameters s =
    (Ok tt,
     log (EvSend (wire [3003; 0]) :: recvs (echo :: Z.of_nat (length vs) :: vs)
            ++ [EvParametersParse vs])
       (set_reader (Some rest) s)).
Proof.
  intros He Hn Hvs Hr. rewrite !wire_cons, <- !app_assoc in Hr.
  unfold _read_parameters.
  unfold bind at 1. rewrite (send_ints_ok s _ _ w Hw Hup pack_3003).
  recv_step echo. recv_step (Z.of_nat (length vs)).
  unfold bind at 1. rewrite range_turns_length.
  rewrite (recv_elements_full vs [] _ rest Hvs) by reflexivity.
  unfold parameters_parse, calculations_parse, emit, ret.
  session_norm. reflexivity.
Qed.

Lemma read_calculations_ok (echo stat : Z) (vs : list Z) (rest : list byte) :
  int32 echo -> int32 stat -> int32 (Z.of_nat (length vs)) -> Forall int32 vs ->
  _reader s = Some (wire (echo :: stat :: Z.of_nat (length vs) :: vs) ++ rest) ->
  _read_calculations s =
    (Ok tt,
     log (EvSend (wire [3004; 0])
            :: recvs (echo :: stat :: Z.of_nat (length vs) :: vs)
            ++ [EvCalculationsParse vs])
       (set_reader (Some rest) s)).
Proof.
  intros He Hs Hn Hvs Hr. rewrite !wire_cons, <- !app_assoc in Hr.
  unfold _read_calculations.
  unfold bind at 1. rewrite (send_ints_ok s _ _ w Hw Hup pack_3004).
  recv_step echo. recv_step stat. recv_step (Z.of_nat (length vs)).
  unfold bind at 1. rewrite range_turns_length.
  rewrite (recv_elements_full vs [] _ rest Hvs) by reflexivity.
  unfold parameters_parse, calculations_parse, emit, ret.
  session_norm. reflexivity.
Qed.

(** A declared length that is zero or negative: [range(0, length)] is
    empty, the loop body never runs and the sink gets the empty list. *)
Lemma read_parameters_no_turn (echo len : Z) (rest : list byte) :
  int32 echo -> int32 len -> len <= 0 ->
  _reader s = Some (wire [echo; len] ++ rest) ->
  _read_parameters s =
    (Ok tt,
     log (EvSend (wire [3003; 0]) :: recvs [echo; len] ++ [EvParametersParse []])
       (set_reader (Some rest) s)).
Proof.
  intros He Hn Hle Hr. rewrite !wire_cons, <- !app_assoc in Hr.
  unfold _read_parameters.
  unfold bind at 1. rewrite (send_ints_ok s _ _ w Hw Hup pack_3003).
  recv_step echo. recv_step len.
  unfold bind at 1. rewrite (range_turns_nonpositive len Hle).
  unfold parameters_parse, calculations_parse, emit, recv_elements, ret.
  session_norm. reflexivity.
Qed.

Lemma read_calculations_no_turn (echo stat len : Z) (rest : list byte) :
  int32 echo -> int32 stat -> int32 len -> len <= 0 ->
  _reader s = Some (wire [echo; stat; len] ++ rest) ->
  _read_calculations s =
    (Ok tt,
     log (EvSend (wire [3004; 0]) :: recvs [echo; stat; len]
            ++ [EvCalculationsParse []])
       (set_reader (Some rest) s)).
Proof.
  intros He Hs Hn Hle Hr. rewrite !wire_cons, <- !app_assoc in Hr.
  unfold _read_calculations.
  unfold bind at 1. rewrite (send_ints_ok s _ _ w Hw Hup pack_3004).
  recv_step echo. recv_step stat. recv_step len.
  unfold bind at 1. rewrite (range_turns_nonpositive len Hle).
  unfold parameters_parse, calculations_parse, emit, recv_elements, ret.
  session_norm. reflexivity.
Qed.

(** A declared length that overstates what the stream holds: the
    [IncompleteReadError] of [readexactly] is not a [struct.error], the
    handler of the loop does not apply and the coroutine raises. *)
Lemma read_parameters_short (echo len : Z) (vs : list Z) (tail : list byte) :
  int32 echo -> int32 len -> Forall int32 vs ->
  Z.of_nat (length vs) < len -> (length tail < 4)%nat ->
  _reader s = Some (wire (echo :: len :: vs) ++ tail) ->
  _read_parameters s =
    (Raise IncompleteReadError,
     log (EvSend (wire [3003; 0]) :: recvs (echo :: len :: vs))
       (set_reader (Some []) s)).
Proof.
  intros He Hn Hvs Hlt Htail Hr. rewrite !wire_cons, <- !app_assoc in Hr.
  unfold _read_parameters.
  unfold bind at 1. rewrite (send_ints_ok s _ _ w Hw Hup pack_3003).
  recv_step echo. recv_step len.
  unfold bind at 1.
  rewrite (recv_elements_short vs (range_turns 0 len) [] _ tail Hvs);
    try assumption; try reflexivity; [|unfold range_turns; lia].
  session_norm. reflexivity.
Qed.

Lemma read_calculations_short (echo stat len : Z) (vs : list Z) (tail : list byte) :
  int32 echo -> int32 stat -> int32 len -> Forall int32 vs ->
  Z.of_nat (length vs) < len -> (length tail < 4)%nat ->
  _reader s = Some (wire (echo :: stat :: len :: vs) ++ tail) ->
  _read_calculations s =
    (Raise IncompleteReadError,
     log (EvSend (wire [3004; 0]) :: recvs (echo :: stat :: len :: vs))
       (set_reader (Some []) s)).
Proof.
  intros He Hs Hn Hvs Hlt Htail Hr. rewrite !wire_cons, <- !app_assoc in Hr.
  unfold _read_calculations.
  unfold bind at 1. rewrite (send_ints_ok s _ _ w Hw Hup pack_3004).
  recv_step echo. recv_step stat. recv_step len.
  unfold bind at 1.
  rewrite (recv_elements_short vs (range_turns 0 len) [] _ tail Hvs);
    try assumption; try reflexivity; [|unfold range_turns; lia].
  session_norm. reflexivity.
Qed.

End Arrays.

(** ** What a coroutine may append to the trace *)

Section Emission.

Variable P : Event -> Prop.

Lemma extends_refl (s : ALuxtronik) : extends P s s.
Proof.
  repeat split. exists []. now rewrite app_nil_r.
Qed.

Lemma extends_trans (s1 s2 s3 : ALuxtronik) :
  extends P s1 s2 -> extends P s2 s3 -> extends P s1 s3.
Proof.
  intros (Hq1 & Hw1 & e1 & Ht1 & Hp1) (Hq2 & Hw2 & e2 & Ht2 & Hp2).
  repeat split; try congruence.
  exists (e1 ++ e2). split.
  - now rewrite Ht2, Ht1, app_assoc.
  - now apply Forall_app.
Qed.

Lemma extends_log (s : ALuxtronik) (evs : list Event) :
  Forall P evs -> extends P s (log evs s).
Proof. intros H. repeat split. now exists evs. Qed.

Lemma extends_set_reader (s : ALuxtronik) (r : option (list byte)) :
  extends P s (set_reader r s).
Proof. repeat split. exists []. simpl. now rewrite app_nil_r. Qed.

Lemma only_emits_ret {A : Type} (a : A) : only_emits P (ret a).
Proof. intros s. apply extends_refl. Qed.

Lemma only_emits_lift {A : Type} (r : Result A) : only_emits P (lift r).
Proof. intros s. apply extends_refl. Qed.

Lemma only_emits_bind {A B : Type} (m : M A) (k : A -> M B) :
  only_emits P m -> (forall a, only_emits P (k a)) -> only_emits P (bind m k).
Proof.
  intros Hm Hk s. unfold bind. specialize (Hm s).
  destruct (m s) as [[a|e] s']; simpl in *; [|assumption].
  eapply extends_trans; [eassumption|apply Hk].
Qed.

Lemma only_emits_try {A : Type} (body handler : M A) :
  only_emits P body -> only_emits P handler ->
  only_emits P (try_except_struct_error body handler).
Proof.
  intros Hb Hh s. unfold try_except_struct_error. specialize (Hb s).
  destruct (body s) as [[a|[]] s']; simpl in *; try assumption.
  eapply extends_trans; [eassumption|apply Hh].
Qed.

Lemma only_emits_emit (e : Event) : P e -> only_emits P (emit e).
Proof. intros He s. apply extends_log. now constructor. Qed.

Lemma only_emits_readexactly (n : nat) :
  (forall b, P (EvRecv b)) -> only_emits P (readexactly n).
Proof.
  intros Hp s. unfold readexactly.
  destruct (_reader s) as [buf|]; [|apply extends_refl].
  destruct (n <=? length buf)%nat; simpl.
  - eapply extends_trans; [apply extends_set_reader|].
    apply extends_log. constructor; [apply Hp|constructor].
  - apply extends_set_reader.
Qed.

Lemma only_emits_recv_int :
  (forall b, P (EvRecv b)) -> only_emits P _recv_int.
Proof.
  intros Hp. unfold _recv_int.
  apply only_emits_bind; [now apply only_emits_readexactly|]. intros data.
  apply only_emits_bind; [apply only_emits_lift|]. intros v.
  apply only_emits_ret.
Qed.

Lemma extends_set_transport (s : ALuxtronik) (t : Transport) :
  extends P s (set_transport t s).
Proof. repeat split. exists []. simpl. now rewrite app_nil_r. Qed.

Lemma only_emits_drain : only_emits P writer_drain.
Proof.
  intros s. unfold writer_drain.
  destruct (_writer s); [|apply extends_refl].
  destruct (transport s) as [|[|after] exc|exc]; cbn [snd];
    first [apply extends_refl | apply extends_set_transport].
Qed.

Lemma only_emits_send_ints (ints : list PyVal) :
  (forall data, pack ints = Ok data -> P (EvSend data)) ->
  only_emits P (_send_ints ints).
Proof.
  intros Hp s. rewrite send_ints_run.
  destruct (pack ints) as [data|e]; [|apply extends_refl].
  destruct (_writer s); [|apply extends_refl].
  eapply extends_trans; [|apply only_emits_drain].
  apply extends_log. constructor; [now apply Hp|constructor].
Qed.

Lemma only_emits_recv_elements (turns : nat) :
  (forall b, P (EvRecv b)) ->
  forall data, only_emits P (recv_elements turns data).
Proof.
  intros Hp. induction turns as [|turns IH]; intros data; simpl.
  - apply only_emits_ret.
  - apply only_emits_bind; [|intros; apply IH].
    apply only_emits_try; [|apply only_emits_ret].
    apply only_emits_bind; [now apply only_emits_recv_int|].
    intros; apply only_emits_ret.
Qed.

End Emission.

(** ** Commands on the wire *)

Section Commands.

(** The command of a packed frame is its first argument. *)
Lemma command_of_pack (cmd : Z) (args : list PyVal) (data : list byte) :
  pack (PyInt cmd :: args) = Ok data -> command_of data = Some cmd.
Proof.
  cbn [pack]. unfold pack_i. cbn [index_of].
  destruct (int32b cmd) eqn:Hc; [|discriminate].
  destruct (pack args) as [tail|]; [|discriminate].
  intros [= <-]. unfold command_of.
  change (unpack_i (firstn 4 _)) with (unpack_i (be32 cmd)).
  now rewrite (unpack_be32 cmd Hc).
Qed.

Lemma sends_other_command (cmd other : Z) (args : list PyVal) (data : list byte) :
  cmd <> other -> pack (PyInt cmd :: args) = Ok data ->
  sends_command other (EvSend data) = false.
Proof.
  intros Hne Hp. simpl. rewrite (command_of_pack cmd args data Hp).
  now apply Z.eqb_neq.
Qed.

(** The read phase never asks for a write. *)
Lemma read_emits_no_3002 :
  only_emits (fun e => sends_command 3002 e = false) _read.
Proof.
  unfold _read, _read_parameters, _read_calculations.
  repeat first
    [ apply only_emits_send_ints; intros data Hd;
      eapply sends_other_command; [|exact Hd]; discriminate
    | apply only_emits_recv_int; reflexivity
    | apply only_emits_recv_elements; reflexivity
    | apply only_emits_emit; reflexivity
    | apply only_emits_bind; [|intros] ].
Qed.

(** The loop of the write phase never asks for a read, never sleeps and
    leaves the queue alone. *)
Lemma write_items_emits_no_3003 (items : list (PyVal * PyVal)) :
  only_emits (fun e => sends_command 3003 e = false) (write_items items).
Proof.
  induction items as [|[index value] items IH]; simpl.
  - apply only_emits_ret.
  - destruct (negb (isinstance_int index) || negb (isinstance_int value)).
    + apply only_emits_bind; [now apply only_emits_emit|]. intros; apply IH.
    + repeat first
        [ apply IH
        | apply only_emits_send_ints; intros data Hd;
          eapply sends_other_command; [|exact Hd]; discriminate
        | apply only_emits_recv_int; reflexivity
        | apply only_emits_bind; [|intros] ].
Qed.

End Commands.

(** ** The write phase *)

Section WritePhase.

Lemma skip_test (index value : PyVal) :
  negb (isinstance_int index) || negb (isinstance_int value)
  = negb (well_formed (index, value)).
Proof. unfold well_formed; simpl. now rewrite negb_andb. Qed.

Lemma pack_write_frame (index value : Z) :
  int32 index -> int32 value ->
  pack [PyInt 3002; PyInt index; PyInt value] = Ok (wire [3002; index; value]).
Proof.
  intros Hi Hv. apply (pack_ints [3002; index; value]).
  repeat constructor; assumption.
Qed.

(** A queue of 32-bit integers on an open connection whose peer answers
    every frame: the loop goes through. *)
Lemma write_items_ok (w : StreamWriter) (entries : list (Z * Z)) :
  forall (replies : list (Z * Z)) (s : ALuxtronik) (rest : list byte),
    _writer s = Some w -> transport s = Up ->
    Forall int32_pair entries -> Forall int32_pair replies ->
    length replies = length entries ->
    _reader s = Some (wire (answers replies) ++ rest) ->
    write_items (as_queue entries) s =
      (Ok tt, log (exchange entries replies) (set_reader (Some rest) s)).
Proof.
  induction entries as [|[index value] entries IH];
    intros [|[cmd val] replies] s rest Hw Hup He Hr Hlen Hrd;
    try discriminate.
  - simpl in *. unfold ret. now rewrite log_nil, (set_reader_same s _ Hrd).
  - inversion He as [|? ? [Hi Hv] He']; subst.
    inversion Hr as [|? ? [Hc Hx] Hr']; subst.
    simpl in Hi, Hv, Hc, Hx.
    change (wire (answers ((cmd, val) :: replies)))
      with (be32 cmd ++ be32 val ++ wire (answers replies)) in Hrd.
    rewrite <- !app_assoc in Hrd.
    cbn [as_queue map write_items fst snd isinstance_int negb orb].
    unfold bind at 1.
    rewrite (send_ints_ok s _ _ w Hw Hup (pack_write_frame index value Hi Hv)).
    recv_step cmd. recv_step val.
    rewrite (IH replies _ rest); try assumption; try reflexivity.
    + session_norm. reflexivity.
    + simpl in Hlen. congruence.
Qed.

(** When the loop returns, the buffers it sent are the frames of the
    well-formed entries, one each, in the order of the iteration. *)
Lemma write_items_sent (items : list (PyVal * PyVal)) :
  forall (s s' : ALuxtronik),
    write_items items s = (Ok tt, s') ->
    exists evs,
      trace s' = trace s ++ evs /\
      map Ok (sent evs) = map frame_of (filter well_formed items).
Proof.
  induction items as [|[index value] items IH]; intros s s' Hrun.
  - injection Hrun as <-. exists []. now rewrite app_nil_r.
  - cbn [write_items] in Hrun. rewrite skip_test in Hrun.
    cbn [filter]. destruct (well_formed (index, value)); cbn [negb] in Hrun.
    + unfold bind at 1 in Hrun.
      destruct (_send_ints _ s) as [[[]|] s1] eqn:E1; [|discriminate].
      destruct (send_ints_inv _ _ _ E1) as (data & w & t & Ep & _ & _ & ->).
      unfold bind at 1 in Hrun.
      destruct (_recv_int _) as [[cmd|] s2] eqn:E2 in Hrun; [|discriminate].
      destruct (recv_int_inv _ _ _ E2) as (b1 & r1 & _ & _ & _ & ->).
      unfold bind at 1 in Hrun.
      destruct (_recv_int _) as [[val|] s3] eqn:E3 in Hrun; [|discriminate].
      destruct (recv_int_inv _ _ _ E3) as (b2 & r2 & _ & _ & _ & ->).
      destruct (IH _ _ Hrun) as (evs & Ht & Hs).
      exists (EvSend data :: EvRecv b1 :: EvRecv b2 :: evs).
      split.
      * rewrite Ht. cbn [trace log set_reader set_transport].
        rewrite <- !app_assoc. reflexivity.
      * cbn [sent map]. unfold frame_of at 1. cbn [fst snd].
        now rewrite Ep, Hs.
    + unfold bind at 1, emit in Hrun.
      destruct (IH _ _ Hrun) as (evs & Ht & Hs).
      exists (EvWarning index value :: evs). split.
      * rewrite Ht. cbn [trace log]. rewrite <- app_assoc. reflexivity.
      * exact Hs.
Qed.

(** Entries that fail the test cost a warning each and nothing else,
    whatever the state of the connection. *)
Lemma write_items_malformed (items : list (PyVal * PyVal)) :
  forall s : ALuxtronik,
    write_items (filter (fun e => negb (well_formed e)) items) s =
      (Ok tt,
       log (map (fun e => EvWarning (fst e) (snd e))
              (filter (fun e => negb (well_formed e)) items)) s).
Proof.
  induction items as [|[index value] items IH]; intros s.
  - simpl. unfold ret. now rewrite log_nil.
  - cbn [filter]. destruct (well_formed (index, value)) eqn:E; cbn [negb].
    + apply IH.
    + cbn [write_items map fst snd]. rewrite skip_test, E. cbn [negb].
      unfold bind at 1, emit. rewrite IH. session_norm. reflexivity.
Qed.

End WritePhase.

(** ** Sessions an observer of the connection cannot tell apart *)

Section Agreement.

Lemma without_warnings_app (xs ys : list Event) :
  without_warnings (xs ++ ys) = without_warnings xs ++ without_warnings ys.
Proof. apply filter_app. Qed.

Lemma agree_log (s t : ALuxtronik) (evs : list Event) :
  agree s t -> agree (log evs s) (log evs t).
Proof.
  intros (Hr & Hw & Hu & Ht). repeat split; simpl; try assumption.
  now rewrite !without_warnings_app, Ht.
Qed.

Lemma agree_warning (s t : ALuxtronik) (index value : PyVal) :
  agree s t -> agree (log [EvWarning index value] s) t.
Proof.
  intros (Hr & Hw & Hu & Ht). repeat split; simpl; try assumption.
  rewrite without_warnings_app. simpl. now rewrite app_nil_r.
Qed.

Lemma agree_set_reader (s t : ALuxtronik) (r : option (list byte)) :
  agree s t -> agree (set_reader r s) (set_reader r t).
Proof. intros (Hr & Hw & Hu & Ht). repeat split; simpl; assumption. Qed.

Lemma agree_set_transport (s t : ALuxtronik) (u : Transport) :
  agree s t -> agree (set_transport u s) (set_transport u t).
Proof. intros (Hr & Hw & Hu & Ht). repeat split; simpl; assumption. Qed.

Lemma respects_drain : respects writer_drain writer_drain.
Proof.
  intros s t Hst. unfold writer_drain.
  pose proof Hst as (Hr & Hw & Hu & Ht). rewrite <- Hw, <- Hu.
  destruct (_writer s); [|split; [reflexivity|exact Hst]].
  destruct (transport s) as [|[|after] exc|exc];
    (split; [reflexivity|]); cbn [snd];
    first [exact Hst | now apply agree_set_transport].
Qed.

Lemma respects_ret {A : Type} (a : A) : respects (ret a) (ret a).
Proof. intros s t H. now split. Qed.

Lemma respects_bind {A B : Type} (m m' : M A) (k k' : A -> M B) :
  respects m m' -> (forall a, respects (k a) (k' a)) ->
  respects (bind m k) (bind m' k').
Proof.
  intros Hm Hk s t Hst. unfold bind.
  destruct (Hm s t Hst) as [Hres Hag].
  destruct (m s) as [[a|e] s1], (m' t) as [[a'|e'] t1];
    simpl in Hres, Hag; try discriminate.
  - injection Hres as <-. now apply Hk.
  - injection Hres as ->. split; [reflexivity|assumption].
Qed.

Lemma respects_send_ints (ints : list PyVal) :
  respects (_send_ints ints) (_send_ints ints).
Proof.
  intros s t Hst. rewrite !send_ints_run.
  destruct (pack ints) as [data|e]; [|split; [reflexivity|exact Hst]].
  pose proof Hst as (Hr & Hw & Hu & Ht). rewrite <- Hw.
  destruct (_writer s); [|split; [reflexivity|exact Hst]].
  apply respects_drain. now apply agree_log.
Qed.

Lemma respects_recv_int : respects _recv_int _recv_int.
Proof.
  intros s t Hst. unfold _recv_int, bind, readexactly.
  pose proof Hst as (Hr & Hw & Hu & Ht). rewrite <- Hr.
  destruct (_reader s) as [buf|]; [|split; [reflexivity|exact Hst]].
  destruct (4 <=? length buf)%nat.
  - unfold lift, ret.
    destruct (unpack_i (firstn 4 buf)); (split; [reflexivity|]);
      cbn [snd]; now apply agree_log, agree_set_reader.
  - split; [reflexivity|]. cbn [snd]. now apply agree_set_reader.
Qed.

(** The loop over the whole queue and the loop over its well-formed
    entries do the same to the connection. *)
Lemma write_items_filter (items : list (PyVal * PyVal)) :
  respects (write_items items) (write_items (filter well_formed items)).
Proof.
  induction items as [|[index value] items IH].
  - apply respects_ret.
  - cbn [filter write_items]. rewrite skip_test.
    destruct (well_formed (index, value)) eqn:E; cbn [negb].
    + cbn [write_items]. rewrite skip_test, E. cbn [negb].
      apply respects_bind; [apply respects_send_ints|]. intros _.
      apply respects_bind; [apply respects_recv_int|]. intros _.
      apply respects_bind; [apply respects_recv_int|]. intros _.
      exact IH.
    + intros s t Hst. unfold bind at 1, emit.
      apply IH. now apply agree_warning.
Qed.

End Agreement.

(** ** Parameters before calculations *)

Section ReadOrder.

Variables P Q : Event -> Prop.

Lemma emits_then_emit {e : Event} : P e -> Q e -> emits_then P Q (emit e).
Proof.
  intros Hp Hq s. split.
  - apply extends_log. now constructor.
  - intros _ _. exists [], e. now repeat split.
Qed.

Lemma emits_then_bind {A B : Type} (m : M A) (k : A -> M B) :
  only_emits P m -> (forall a, emits_then P Q (k a)) ->
  emits_then P Q (bind m k).
Proof.
  intros Hm Hk s. unfold bind. specialize (Hm s).
  destruct (m s) as [[a|e] s1]; cbn [snd] in Hm.
  - destruct (Hk a s1) as [Hext Hlast]. split.
    + eapply extends_trans; eassumption.
    + intros b Hb. destruct (Hlast b Hb) as (evs & e & Ht & Hp & Hq).
      destruct Hm as (_ & _ & evs1 & Ht1 & Hp1).
      exists (evs1 ++ evs), e. repeat split; try assumption.
      * now rewrite Ht, Ht1, !app_assoc.
      * now apply Forall_app.
  - split; [assumption|]. intros b Hb. discriminate.
Qed.

End ReadOrder.

Section ParametersFirst.

Lemma read_parameters_then_parse : emits_then not_calculations parameters_parsed _read_parameters.
Proof.
  unfold _read_parameters.
  apply emits_then_bind.
  { apply only_emits_send_ints; intros data Hd. unfold not_calculations. cbn.
    now rewrite (command_of_pack _ _ _ Hd). }
  intros _. apply emits_then_bind; [now apply only_emits_recv_int|].
  intros cmd. apply emits_then_bind; [now apply only_emits_recv_int|].
  intros len. apply emits_then_bind; [now apply only_emits_recv_elements|].
  intros data. apply emits_then_emit; [reflexivity|now exists data].
Qed.

Lemma read_calculations_emits : only_emits (fun _ => True) _read_calculations.
Proof.
  unfold _read_calculations.
  repeat first
    [ apply only_emits_send_ints; now intros
    | apply only_emits_recv_int; now intros
    | apply only_emits_recv_elements; now intros
    | apply only_emits_emit; exact I
    | apply only_emits_bind; [|intros] ].
Qed.

Lemma parameters_first_quiet (evs : list Event) :
  Forall not_calculations evs -> parameters_first evs = true.
Proof.
  induction 1 as [|e evs He _ IH]; [reflexivity|].
  unfold not_calculations in He. destruct e; simpl in *; try assumption;
    try reflexivity; now rewrite ?He.
Qed.

Lemma parameters_first_parsed (evs tail : list Event) (data : list Z) :
  Forall not_calculations evs ->
  parameters_first (evs ++ EvParametersParse data :: tail) = true.
Proof.
  induction 1 as [|e evs He _ IH]; [reflexivity|].
  unfold not_calculations in He. destruct e; simpl in *; try assumption;
    try reflexivity; now rewrite ?He.
Qed.

(** Whatever the session and the stream, a read phase asks for the
    calculations only after it has handed the parameters to their sink. *)
Lemma read_parameters_first (s : ALuxtronik) :
  exists evs,
    trace (snd (_read s)) = trace s ++ evs /\ parameters_first evs = true.
Proof.
  unfold _read, bind.
  destruct (read_parameters_then_parse s) as [Hext Hlast].
  destruct (_read_parameters s) as [[[]|e] s1]; cbn [fst snd] in *.
  - destruct (Hlast tt eq_refl) as (evs & e & Ht & Hq & data & ->).
    destruct (read_calculations_emits s1) as (_ & _ & evc & Htc & _).
    exists (evs ++ EvParametersParse data :: evc). split.
    + rewrite Htc, Ht, <- !app_assoc. reflexivity.
    + now apply parameters_first_parsed.
  - destruct Hext as (_ & _ & evs & Ht & Hq).
    exists evs. split; [assumption|]. now apply parameters_first_quiet.
Qed.

End ParametersFirst.

(** ** The queue after a write phase *)

Section QueueAfterWrite.

Variable s : ALuxtronik.

Lemma write_items_keeps_queue (items : list (PyVal * PyVal)) :
  queue (snd (write_items items s)) = queue s.
Proof. now destruct (write_items_emits_no_3003 items s) as (Hq & _). Qed.

(** The write phase over the whole queue and over its well-formed entries:
    same outcome, same traffic. *)
Lemma write_respects_filter :
  fst (_write s) = fst (_write (set_queue (filter well_formed (queue s)) s)) /\
  agree (snd (_write s))
        (snd (_write (set_queue (filter well_formed (queue s)) s))).
Proof.
  unfold _write, flush_queue, bind; cbn [queue set_queue].
  destruct (write_items_filter (queue s) s
              (set_queue (filter well_formed (queue s)) s)) as [Hres Hag];
    [now repeat split|].
  destruct (write_items (queue s) s) as [[[]|e] s1],
           (write_items (filter well_formed (queue s))
              (set_queue (filter well_formed (queue s)) s)) as [[[]|e'] t1];
    cbn [fst snd] in *; try discriminate.
  - split; [reflexivity|exact Hag].
  - injection Hres as ->. split; [reflexivity|exact Hag].
Qed.

End QueueAfterWrite.

(** ** Sessions without a writer *)

Section NoWriter.

Lemma read_no_writer (s : ALuxtronik) :
  _writer s = None -> _read s = (Raise AttributeError, s).
Proof.
  intros Hw. unfold _read, bind at 1, _read_parameters, bind at 1.
  now rewrite (send_ints_closed s _ _ Hw pack_3003).
Qed.

(** The write loop without a writer: it comes through only if it has
    nothing to send. *)
Lemma write_items_no_writer (items : list (PyVal * PyVal)) :
  forall s : ALuxtronik,
    _writer s = None ->
    (exists s', write_items items s = (Ok tt, s') /\ _writer s' = None)
    \/ (exists e s',
          write_items items s = (Raise e, s') /\
          (e = AttributeError \/ e = StructError)).
Proof.
  induction items as [|[index value] items IH]; intros s Hw.
  - left. now exists s.
  - cbn [write_items].
    destruct (negb (isinstance_int index) || negb (isinstance_int value)).
    + unfold bind at 1, emit. now apply IH.
    + right. unfold bind at 1. rewrite send_ints_run, Hw.
      destruct (pack [PyInt 3002; index; value]) as [data|e] eqn:Hp.
      * exists AttributeError, s. split; [reflexivity|now left].
      * exists e, s. split; [reflexivity|].
        right. exact (pack_raises_struct_error _ _ Hp).
Qed.

Lemma write_cycle_no_writer (s : ALuxtronik) :
  _writer s = None ->
  exists e, fst (write s) = Raise e /\ (e = AttributeError \/ e = StructError).
Proof.
  intros Hw. unfold write, _read_after_write, bind at 1, bind at 1.
  unfold _write, flush_queue, bind at 1.
  destruct (write_items_no_writer (queue s) s Hw)
    as [(s1 & -> & Hw1)|(e & s1 & -> & He)].
  - unfold emit. rewrite read_no_writer by exact Hw1.
    exists AttributeError. split; [reflexivity|now left].
  - now exists e.
Qed.

End NoWriter.

(** ** A complete cycle *)

(** [{5: 10}] is written and acknowledged, the session sleeps, then reads
    the parameters [[42; 43]] and the calculation [[99]]; the queue is empty
    afterwards. *)
Example end_to_end_cycle :
  write end_to_end
  = (Ok tt,
     set_queue []
       (log (exchange [(5, 10)] [(3002, 10)]
             ++ EvSleep 1
             :: (EvSend (wire [3003; 0]) :: recvs [3003; 2; 42; 43]
                   ++ [EvParametersParse [42; 43]])
             ++ (EvSend (wire [3004; 0]) :: recvs [3004; 0; 1; 99]
                   ++ [EvCalculationsParse [99]]))
          (set_reader (Some []) end_to_end))).
Proof. reflexivity. Qed.

(** * The claims *)

(** ** Array reader: short stream *)

(** C1 (what the code does at the failing input). The controller declares
    two parameters and the stream ends after the first one: the
    [IncompleteReadError] of [readexactly] leaves [_read_parameters]; the
    one value already read is lost and the parameter sink is never called.
    The same holds for [_read_calculations]. *)
Theorem short_array_raises :
  _read_parameters short_parameters
  = (Raise IncompleteReadError,
     log (EvSend (wire [3003; 0]) :: recvs [3003; 2; 42])
       (set_reader (Some []) short_parameters))
  /\ _read_calculations short_calculations
     = (Raise IncompleteReadError,
        log (EvSend (wire [3004; 0]) :: recvs [3004; 0; 2; 42])
          (set_reader (Some []) short_calculations)).
Proof.
  split.
  - apply (read_parameters_short short_parameters (Writer "heatpump" 8889)
             eq_refl eq_refl 3003 2 [42] []);
      first [reflexivity | simpl; lia | repeat constructor].
  - apply (read_calculations_short short_calculations (Writer "heatpump" 8889)
             eq_refl eq_refl 3004 0 2 [42] []);
      first [reflexivity | simpl; lia | repeat constructor].
Qed.

(** ** Array reader: negative length *)

(** C2 (counterexample). With a declared length of [-1] both array readers
    return normally and hand the empty list to their sink: nothing is
    raised. *)
Lemma negative_length_accepted :
  _read_parameters negative_parameters
  = (Ok tt,
     log (EvSend (wire [3003; 0]) :: recvs [3003; -1] ++ [EvParametersParse []])
       (set_reader (Some []) negative_parameters))
  /\ _read_calculations negative_calculations
     = (Ok tt,
        log (EvSend (wire [3004; 0]) :: recvs [3004; 0; -1]
               ++ [EvCalculationsParse []])
          (set_reader (Some []) negative_calculations)).
Proof. split; reflexivity. Qed.

(** C2 (amended). When the declared length is negative, each array reader
    takes no element from the stream, calls its sink with the empty list
    and returns without raising; what follows the header stays unread.
    (On an open connection whose transport takes the request.) *)
Theorem negative_length_reads_nothing
    (s : ALuxtronik) (w : StreamWriter) (echo stat len : Z) (rest : list byte) :
  _writer s = Some w -> transport s = Up ->
  int32 echo -> int32 stat -> int32 len -> len < 0 ->
  _read_parameters (set_reader (Some (wire [echo; len] ++ rest)) s)
  = (Ok tt,
     log (EvSend (wire [3003; 0]) :: recvs [echo; len] ++ [EvParametersParse []])
       (set_reader (Some rest) s))
  /\ _read_calculations (set_reader (Some (wire [echo; stat; len] ++ rest)) s)
     = (Ok tt,
        log (EvSend (wire [3004; 0]) :: recvs [echo; stat; len]
               ++ [EvCalculationsParse []])
          (set_reader (Some rest) s)).
Proof.
  intros Hw Hup He Hs Hn Hneg. split.
  - rewrite (read_parameters_no_turn
               (set_reader (Some (wire [echo; len] ++ rest)) s) w Hw Hup
               echo len rest);
      try assumption; try reflexivity; lia.
  - rewrite (read_calculations_no_turn
               (set_reader (Some (wire [echo; stat; len] ++ rest)) s) w Hw Hup
               echo stat len rest);
      try assumption; try reflexivity; lia.
Qed.

Lemma negative_length_reads_nothing_witness :
  _read_parameters (set_reader (Some (wire [3003; -7] ++ [])) (connected [] []))
  = (Ok tt,
     log (EvSend (wire [3003; 0]) :: recvs [3003; -7] ++ [EvParametersParse []])
       (set_reader (Some []) (connected [] [])))
  /\ _read_calculations
       (set_reader (Some (wire [3003; 0; -7] ++ [])) (connected [] []))
     = (Ok tt,
        log (EvSend (wire [3004; 0]) :: recvs [3003; 0; -7]
               ++ [EvCalculationsParse []])
          (set_reader (Some []) (connected [] []))).
Proof.
  apply (negative_length_reads_nothing (connected [] [])
           (Writer "heatpump" 8889) 3003 0 (-7) []);
    first [reflexivity | lia].
Defined.

(** ** Array reader: length zero *)

(** C8. With a declared length of zero, each array reader calls its sink
    with the empty list and leaves on the stream everything that follows
    the header (echo and length for the parameters; echo, status and length
    for the calculations).  (On an open connection whose transport takes
    the request.) *)
Theorem zero_length_array
    (s : ALuxtronik) (w : StreamWriter) (echo stat : Z) (rest : list byte) :
  _writer s = Some w -> transport s = Up -> int32 echo -> int32 stat ->
  _read_parameters (set_reader (Some (wire [echo; 0] ++ rest)) s)
  = (Ok tt,
     log (EvSend (wire [3003; 0]) :: recvs [echo; 0] ++ [EvParametersParse []])
       (set_reader (Some rest) s))
  /\ _read_calculations (set_reader (Some (wire [echo; stat; 0] ++ rest)) s)
     = (Ok tt,
        log (EvSend (wire [3004; 0]) :: recvs [echo; stat; 0]
               ++ [EvCalculationsParse []])
          (set_reader (Some rest) s)).
Proof.
  intros Hw Hup He Hs. split.
  - rewrite (read_parameters_no_turn
               (set_reader (Some (wire [echo; 0] ++ rest)) s) w Hw Hup
               echo 0 rest);
      try assumption; try reflexivity; lia.
  - rewrite (read_calculations_no_turn
               (set_reader (Some (wire [echo; stat; 0] ++ rest)) s) w Hw Hup
               echo stat 0 rest);
      try assumption; try reflexivity; lia.
Qed.

Lemma zero_length_array_witness :
  _read_parameters
    (set_reader (Some (wire [3003; 0] ++ wire [77])) (connected [] []))
  = (Ok tt,
     log (EvSend (wire [3003; 0]) :: recvs [3003; 0] ++ [EvParametersParse []])
       (set_reader (Some (wire [77])) (connected [] [])))
  /\ _read_calculations
       (set_reader (Some (wire [3003; 5; 0] ++ wire [77])) (connected [] []))
     = (Ok tt,
        log (EvSend (wire [3004; 0]) :: recvs [3003; 5; 0]
               ++ [EvCalculationsParse []])
          (set_reader (Some (wire [77])) (connected [] []))).
Proof.
  apply (zero_length_array (connected [] []) (Writer "heatpump" 8889)
           3003 5 (wire [77])); reflexivity.
Defined.

(** ** The read phase *)

(** C7. On an open connection whose transport takes the two requests and
    whose controller answers them in full, a read phase sends [(3003, 0)], reads the echo, the length and
    the values and hands the values to the parameter sink, and only then
    sends [(3004, 0)], reads the echo, the status word, the length and the
    values and hands these to the calculations sink.  And on every session,
    whatever the stream, nothing of the calculations read happens before
    the parameter sink was called. *)
Theorem read_phase_order
    (s : ALuxtronik) (w : StreamWriter)
    (echo_p echo_c stat : Z) (params calcs : list Z) (rest : list byte) :
  _writer s = Some w -> transport s = Up ->
  Forall int32 (echo_p :: Z.of_nat (length params) :: params) ->
  Forall int32 (echo_c :: stat :: Z.of_nat (length calcs) :: calcs) ->
  _reader s
  = Some (wire (echo_p :: Z.of_nat (length params) :: params)
          ++ wire (echo_c :: stat :: Z.of_nat (length calcs) :: calcs)
          ++ rest) ->
  _read s
  = (Ok tt,
     log ((EvSend (wire [3003; 0])
             :: recvs (echo_p :: Z.of_nat (length params) :: params)
             ++ [EvParametersParse params])
          ++ (EvSend (wire [3004; 0])
                :: recvs (echo_c :: stat :: Z.of_nat (length calcs) :: calcs)
                ++ [EvCalculationsParse calcs]))
       (set_reader (Some rest) s))
  /\ forall t : ALuxtronik,
       exists evs,
         trace (snd (_read t)) = trace t ++ evs /\ parameters_first evs = true.
Proof.
  intros Hw Hup Hp Hc Hr. split; [|exact read_parameters_first].
  inversion Hp as [|? ? Hep Hp1]; subst. inversion Hp1 as [|? ? Hnp Hvp]; subst.
  inversion Hc as [|? ? Hec Hc1]; subst. inversion Hc1 as [|? ? Hst Hc2]; subst.
  inversion Hc2 as [|? ? Hnc Hvc]; subst.
  unfold _read, bind.
  rewrite (read_parameters_ok s w Hw Hup echo_p params _ Hep Hnp Hvp Hr).
  match goal with
  | |- context [_read_calculations ?st] =>
      rewrite (read_calculations_ok st w Hw Hup echo_c stat calcs rest)
  end; try assumption; try reflexivity.
  session_norm. reflexivity.
Qed.

Lemma read_phase_order_witness :
  _read (connected [] (wire [3003; 2; 42; 43] ++ wire [3004; 0; 1; 99] ++ []))
  = (Ok tt,
     log ((EvSend (wire [3003; 0]) :: recvs [3003; 2; 42; 43]
             ++ [EvParametersParse [42; 43]])
          ++ (EvSend (wire [3004; 0]) :: recvs [3004; 0; 1; 99]
                ++ [EvCalculationsParse [99]]))
       (set_reader (Some [])
          (connected [] (wire [3003; 2; 42; 43] ++ wire [3004; 0; 1; 99] ++ []))))
  /\ forall t : ALuxtronik,
       exists evs,
         trace (snd (_read t)) = trace t ++ evs /\ parameters_first evs = true.
Proof.
  apply (read_phase_order
           (connected [] (wire [3003; 2; 42; 43] ++ wire [3004; 0; 1; 99] ++ []))
           (Writer "heatpump" 8889) 3003 3004 0 [42; 43] [99] []);
    first [reflexivity | repeat constructor].
Defined.

(** ** The write phase *)

(** C3 (counterexample). [{2147483648: 0}] passes the [isinstance] test of
    [_write], the connection is open and the controller is ready to answer;
    [struct.pack] rejects the index, [_write] raises [struct.error], no
    frame is sent and the queue is not emptied. *)
Lemma oversized_entry_raises :
  well_formed (PyInt 2147483648, PyInt 0) = true /\
  _write oversized_entry = (Raise StructError, oversized_entry) /\
  queue oversized_entry <> [].
Proof.
  split; [reflexivity|]. split; [reflexivity|]. discriminate.
Qed.

(** C3 (amended). For a queue of integers that all fit in 32 signed bits,
    on an open connection whose transport takes every frame and whose
    controller answers every frame with two integers, one write phase sends one [(3002, index, value)] frame per
    entry in the order of the queue, reads two integers back after each
    frame, and leaves the queue empty. *)
Theorem write_phase_frames
    (s : ALuxtronik) (w : StreamWriter)
    (entries replies : list (Z * Z)) (rest : list byte) :
  _writer s = Some w -> transport s = Up ->
  queue s = as_queue entries ->
  Forall int32_pair entries -> Forall int32_pair replies ->
  length replies = length entries ->
  _reader s = Some (wire (answers replies) ++ rest) ->
  _write s
  = (Ok tt,
     set_queue [] (log (exchange entries replies) (set_reader (Some rest) s)))
  /\ sent (exchange entries replies)
     = map (fun e => wire [3002; fst e; snd e]) entries.
Proof.
  intros Hw Hup Hq He Hr Hlen Hrd. split.
  - unfold _write, flush_queue, bind. rewrite Hq.
    now rewrite (write_items_ok w entries replies s rest Hw Hup He Hr Hlen Hrd).
  - clear -Hlen. revert replies Hlen.
    induction entries as [|[index value] entries IH];
      intros [|[cmd val] replies] Hlen; try discriminate; [reflexivity|].
    cbn [exchange sent map fst snd]. f_equal. apply IH.
    simpl in Hlen. congruence.
Qed.

Lemma write_phase_frames_witness :
  _write (connected (as_queue [(5, 10); (7, -1)])
            (wire (answers [(3002, 10); (3002, -1)]) ++ wire [9]))
  = (Ok tt,
     set_queue []
       (log (exchange [(5, 10); (7, -1)] [(3002, 10); (3002, -1)])
          (set_reader (Some (wire [9]))
             (connected (as_queue [(5, 10); (7, -1)])
                (wire (answers [(3002, 10); (3002, -1)]) ++ wire [9])))))
  /\ sent (exchange [(5, 10); (7, -1)] [(3002, 10); (3002, -1)])
     = map (fun e => wire [3002; fst e; snd e]) [(5, 10); (7, -1)].
Proof.
  apply (write_phase_frames
           (connected (as_queue [(5, 10); (7, -1)])
              (wire (answers [(3002, 10); (3002, -1)]) ++ wire [9]))
           (Writer "heatpump" 8889)
           [(5, 10); (7, -1)] [(3002, 10); (3002, -1)] (wire [9]));
    first [reflexivity | repeat constructor].
Defined.

(** C4 (counterexample). [{"x": 1, 1: 5}] is pending and the controller
    closes the stream without answering: the first entry is skipped, the
    read-back of the second raises, [_write] raises with it, and the
    skipped entry is still in the queue afterwards. *)
Lemma skipped_entry_stays_queued :
  well_formed (PyStr "x", PyInt 1) = false /\
  fst (_write skipped_then_unanswered) = Raise IncompleteReadError /\
  queue (snd (_write skipped_then_unanswered))
  = [(PyStr "x", PyInt 1); (PyInt 1, PyInt 5)].
Proof. split; [reflexivity|]. split; reflexivity. Qed.

(** C4 (amended). Entries whose index or value is not an [int] are skipped:
    a queue made of such entries only is walked without raising, with one
    warning per entry and no frame, whether or not a connection is open; in
    any queue they change neither the outcome of the write phase nor what
    goes over the connection, which are those of the well-formed entries
    alone; once the write phase has returned the queue is empty, skipped
    entries included, and when it raises the queue is left as it was,
    skipped entries included. *)
Theorem write_phase_skips_malformed (s : ALuxtronik) :
  let bad := filter (fun e => negb (well_formed e)) (queue s) in
  let good := filter well_formed (queue s) in
  _write (set_queue bad s)
  = (Ok tt,
     set_queue [] (log (map (fun e => EvWarning (fst e) (snd e)) bad) s))
  /\ fst (_write s) = fst (_write (set_queue good s))
  /\ agree (snd (_write s)) (snd (_write (set_queue good s)))
  /\ queue (snd (_write s))
     = match fst (_write s) with
       | Ok _ => []
       | Raise _ => queue s
       end.
Proof.
  intros bad good.
  destruct (write_respects_filter s) as [Hres Hag].
  split; [|split; [exact Hres|split; [exact Hag|]]].
  - unfold _write, flush_queue, bind; cbn [queue set_queue]. unfold bad.
    now rewrite write_items_malformed.
  - unfold _write, flush_queue, bind.
    pose proof (write_items_keeps_queue s (queue s)) as Hq.
    now destruct (write_items (queue s) s) as [[[]|e] s1].
Qed.

(** C5 (counterexample). [{1: 5}] is pending and the controller closes the
    stream without answering: the read-back raises, [_write] raises with
    it, and the entry is still in the queue afterwards. *)
Lemma unanswered_write_keeps_queue :
  fst (_write unanswered_entry) = Raise IncompleteReadError /\
  queue (snd (_write unanswered_entry)) = [(PyInt 1, PyInt 5)].
Proof. split; reflexivity. Qed.

(** C5 (amended). After a write phase that returns, the queue is empty,
    whatever was sent or skipped; a write phase that raises leaves the
    queue as it found it. *)
Theorem write_phase_queue (s : ALuxtronik) :
  queue (snd (_write s))
  = match fst (_write s) with
    | Ok _ => []
    | Raise _ => queue s
    end.
Proof.
  unfold _write, flush_queue, bind.
  pose proof (write_items_keeps_queue s (queue s)) as Hkept.
  destruct (write_items (queue s) s) as [[[]|e] s1]; cbn [fst snd] in *.
  - (* the loop returned: the statement after it rebinds the queue *)
    reflexivity.
  - (* the loop raised: that statement is not reached *)
    exact Hkept.
Qed.

(** ** The cycle *)

(** C6. A read-only cycle sends no frame with command 3002.  In a
    write-then-read cycle the write phase sends no 3003 frame; if it raises,
    the cycle ends there; if it returns, it has sent the frame of every
    well-formed queue entry, the settle sleep comes next, and only then the
    read phase, which sends no 3002 frame. *)
Theorem cycle_order (s : ALuxtronik) :
  (exists rd,
      trace (snd (read s)) = trace s ++ rd /\
      Forall (fun e => sends_command 3002 e = false) rd)
  /\
  (exists wr rd,
      trace (snd (_write s)) = trace s ++ wr /\
      Forall (fun e => sends_command 3003 e = false) wr /\
      Forall (fun e => sends_command 3002 e = false) rd /\
      match fst (_write s) with
      | Raise e => write s = (Raise e, snd (_write s))
      | Ok _ =>
          trace (snd (write s))
          = trace s ++ wr ++ EvSleep WAIT_TIME_AFTER_PARAMETER_WRITE :: rd
          /\ map Ok (sent wr) = map frame_of (filter well_formed (queue s))
      end).
Proof.
  split.
  - destruct (read_emits_no_3002 s) as (_ & _ & rd & Ht & Hp).
    exists rd. split; assumption.
  - destruct (write_items_emits_no_3003 (queue s) s) as (_ & _ & wr & Ht & Hp).
    unfold write, _read_after_write, _write, flush_queue, bind, emit.
    destruct (write_items (queue s) s) as [[[]|e] s1] eqn:Hrun;
      cbn [fst snd] in *.
    + destruct (read_emits_no_3002
                  (log [EvSleep WAIT_TIME_AFTER_PARAMETER_WRITE]
                     (set_queue [] s1))) as (_ & _ & rd & Htr & Hpr).
      exists wr, rd.
      split; [exact Ht|]. split; [exact Hp|]. split; [exact Hpr|]. split.
      * rewrite Htr. cbn [trace log set_queue]. rewrite Ht.
        now rewrite <- !app_assoc.
      * destruct (write_items_sent _ _ _ Hrun) as (evs & Hte & Hs).
        rewrite Ht in Hte. apply app_inv_head in Hte. now subst.
    + exists wr, [].
      split; [exact Ht|]. split; [exact Hp|]. split; [constructor|].
      reflexivity.
Qed.

(** ** Closing the session *)

(** C9 (counterexample). When the connection was lost, [wait_closed]
    raises in [__aexit__] and both handles stay set.  On a closed session,
    sending an integer that does not fit in 32 bits fails in [struct.pack]
    with [struct.error], not with the error of a missing connection; and a
    write cycle with [{"x": 1}] pending warns about the entry, empties the
    queue and sleeps before its read phase fails. *)
Lemma closing_can_fail :
  (__aexit__ lost_connection
   = (Raise BrokenPipeError, log [EvClose] lost_connection) /\
   _reader (snd (__aexit__ lost_connection)) = Some [] /\
   _writer (snd (__aexit__ lost_connection))
   = Some (Writer "heatpump" 8889)) /\
  (_writer closed_session = None /\
   _send_ints [PyInt 2147483648] closed_session
   = (Raise StructError, closed_session)) /\
  write closed_with_malformed
  = (Raise AttributeError,
     log [EvWarning (PyStr "x") (PyInt 1);
          EvSleep WAIT_TIME_AFTER_PARAMETER_WRITE]
       (set_queue [] closed_with_malformed)).
Proof.
  split; [|split].
  - split; [reflexivity|]. split; reflexivity.
  - split; reflexivity.
  - reflexivity.
Qed.

(** C9 (amended). [__aexit__] closes a writer that is set and clears both
    handles, unless the connection was lost: then [wait_closed] raises the
    error of the socket and both handles stay as they were.  On a session
    without a writer (closed before, or never opened) it returns and leaves
    both handles cleared.  On a session with both handles cleared, a
    receive raises the [AttributeError] of the missing reader, and a send of
    values that pack, or a read cycle, raises the [AttributeError] of the
    missing writer, each leaving the session as it was; a send of values
    that do not pack raises the [struct.error] of the packing.  A write
    cycle does not return either, but it walks the queue first: it fails
    with [AttributeError] or [struct.error] at its first well-formed entry,
    and when there is none it warns about every entry, empties the queue
    and sleeps before its read phase raises [AttributeError]. *)
Theorem close_clears_handles
    (s : ALuxtronik) (ints : list PyVal) (host : string) (port : Z) (safe : bool) :
  let closed := set_writer None (set_reader None s) in
  let bad := filter (fun e => negb (well_formed e)) (queue s) in
  __aexit__ s
  = match _writer s, transport s with
    | Some _, Lost exc => (Raise (os_exception exc), log [EvClose] s)
    | Some _, _ => (Ok tt, set_writer None (set_reader None (log [EvClose] s)))
    | None, _ => (Ok tt, closed)
    end /\
  __aexit__ closed = (Ok tt, closed) /\
  __aexit__ (__init__ host port safe) = (Ok tt, __init__ host port safe) /\
  _recv_int closed = (Raise AttributeError, closed) /\
  _send_ints ints closed
  = (Raise match pack ints with
           | Ok _ => AttributeError
           | Raise e => e
           end,
     closed) /\
  read closed = (Raise AttributeError, closed) /\
  (exists e,
      fst (write closed) = Raise e /\ (e = AttributeError \/ e = StructError)) /\
  write (set_queue bad closed)
  = (Raise AttributeError,
     log (map (fun e => EvWarning (fst e) (snd e)) bad
          ++ [EvSleep WAIT_TIME_AFTER_PARAMETER_WRITE])
       (set_queue [] closed)).
Proof.
  intros closed bad.
  assert (Hr : _reader closed = None) by reflexivity.
  assert (Hw : _writer closed = None) by reflexivity.
  split; [|split; [reflexivity|split; [reflexivity|]]].
  { unfold __aexit__, bind, writer_close.
    destruct (_writer s); [|reflexivity].
    now destruct (transport s) as [|after exc|exc]. }
  split; [now apply recv_int_closed|]. split; [|split; [|split]].
  - destruct (pack ints) as [data|e] eqn:Hp.
    + now apply (send_ints_closed closed ints data).
    + now apply send_ints_unpackable.
  - change (read closed) with (_read closed). now apply read_no_writer.
  - now apply write_cycle_no_writer.
  - unfold write, _read_after_write, bind at 1, bind at 1.
    unfold _write, flush_queue, bind at 1. cbn [queue set_queue].
    unfold bad. rewrite write_items_malformed. fold bad.
    unfold emit. rewrite read_no_writer by reflexivity.
    unfold log, set_queue; cbn. now rewrite <- app_assoc.
Qed.

(** ** The codec *)

(** C10. For [v] in the signed 32-bit range the send helper, on an open
    connection whose transport takes the buffer, writes the four bytes
    [be32 v], and the receive helper, on a stream that starts
    with these four bytes, returns [v] and consumes exactly them; sending
    [n] such integers writes one buffer of [4 * n] bytes. *)
Theorem codec_round_trip
    (s r : ALuxtronik) (w : StreamWriter) (v : Z) (ints : list Z)
    (rest : list byte) :
  _writer s = Some w -> transport s = Up -> int32 v -> Forall int32 ints ->
  _send_ints [PyInt v] s = (Ok tt, log [EvSend (be32 v)] s) /\
  length (be32 v) = 4%nat /\
  _recv_int (set_reader (Some (be32 v ++ rest)) r)
  = (Ok v, log [EvRecv (be32 v)] (set_reader (Some rest) r)) /\
  exists data,
    _send_ints (map PyInt ints) s = (Ok tt, log [EvSend data] s) /\
    length data = (4 * length ints)%nat.
Proof.
  intros Hw Hup Hv Hints.
  split; [|split; [apply be32_length|split]].
  - apply (send_ints_ok s _ _ w Hw Hup).
    cbn [pack]. rewrite (pack_i_int32 v Hv). now rewrite app_nil_r.
  - rewrite (recv_int_ok _ v rest); try assumption; reflexivity.
  - exists (wire ints). split.
    + apply (send_ints_ok s _ _ w Hw Hup). now apply pack_ints.
    + rewrite (pack_length (map PyInt ints) (wire ints) (pack_ints ints Hints)).
      now rewrite length_map.
Qed.

Lemma codec_round_trip_witness :
  _send_ints [PyInt (-2)] (connected [] [])
  = (Ok tt, log [EvSend (be32 (-2))] (connected [] [])) /\
  length (be32 (-2)) = 4%nat /\
  _recv_int (set_reader (Some (be32 (-2) ++ [])) (connected [] []))
  = (Ok (-2), log [EvRecv (be32 (-2))] (set_reader (Some []) (connected [] []))) /\
  exists data,
    _send_ints (map PyInt [3002; 5; -2147483648]) (connected [] [])
    = (Ok tt, log [EvSend data] (connected [] [])) /\
    length data = (4 * length [3002; 5; -2147483648]%Z)%nat.
Proof.
  apply (codec_round_trip (connected [] []) (connected [] [])
           (Writer "heatpump" 8889) (-2) [3002; 5; -2147483648] []);
    first [reflexivity | repeat constructor].
Defined.

(** * Further properties of the session *)

(** ** Decoding, then encoding *)

Section Decode.

Lemma byte_of_Z_land (x : Z) (b : byte) :
  Z.land x 255 = Z_of_byte b -> byte_of_Z x = b.
Proof.
  intros H. unfold byte_of_Z. rewrite H.
  unfold Z_of_byte. rewrite N2Z.id, Byte.of_to_N. reflexivity.
Qed.

Lemma unpack_i_value (b3 b2 b1 b0 : byte) :
  exists u,
    u = Z_of_byte b3 * 16777216 + Z_of_byte b2 * 65536
        + Z_of_byte b1 * 256 + Z_of_byte b0 /\
    unpack_i [b3; b2; b1; b0]
    = Ok (if 2147483648 <=? u then u - 4294967296 else u).
Proof.
  pose proof (Z_of_byte_range b3). pose proof (Z_of_byte_range b2).
  pose proof (Z_of_byte_range b1). pose proof (Z_of_byte_range b0).
  eexists. split; [reflexivity|]. unfold unpack_i.
  rewrite (lor_shiftl_add _ (Z_of_byte b0) 8)
    by (change (2 ^ 8) with 256; lia).
  rewrite (lor_shiftl_add _ _ 16) by (change (2 ^ 16) with 65536; lia).
  rewrite (lor_shiftl_add _ _ 24) by (change (2 ^ 24) with 16777216; lia).
  change (2 ^ 8) with 256. change (2 ^ 16) with 65536.
  change (2 ^ 24) with 16777216.
  match goal with
  | |- Ok (if _ <=? ?a then _ else _) = Ok (if _ <=? ?c then _ else _) =>
      replace a with c by lia
  end.
  reflexivity.
Qed.

(** What [struct.unpack(">i", _)] returns fits the ['i'] format. *)
Lemma unpack_i_int32 (b : list byte) (v : Z) :
  unpack_i b = Ok v -> int32 v.
Proof.
  destruct b as [|b3 [|b2 [|b1 [|b0 [|? ?]]]]]; try discriminate.
  destruct (unpack_i_value b3 b2 b1 b0) as (u & Hu & ->).
  pose proof (Z_of_byte_range b3). pose proof (Z_of_byte_range b2).
  pose proof (Z_of_byte_range b1). pose proof (Z_of_byte_range b0).
  intros [= <-]. apply int32b_spec.
  destruct (Z.leb_spec 2147483648 u); lia.
Qed.

(** Packing what was unpacked gives the four bytes back. *)
Lemma be32_unpack_i (b : list byte) (v : Z) :
  unpack_i b = Ok v -> be32 v = b.
Proof.
  destruct b as [|b3 [|b2 [|b1 [|b0 [|? ?]]]]]; try discriminate.
  destruct (unpack_i_value b3 b2 b1 b0) as (u & Hu & ->).
  pose proof (Z_of_byte_range b3). pose proof (Z_of_byte_range b2).
  pose proof (Z_of_byte_range b1). pose proof (Z_of_byte_range b0).
  intros [= <-]. unfold be32.
  assert (Hb : forall k x (c : byte),
             0 <= k -> (x / 2 ^ k) mod 256 = Z_of_byte c ->
             byte_of_Z (Z.shiftr x k) = c).
  { intros k x c Hk Hc. apply byte_of_Z_land.
    change 255 with (Z.ones 8).
    now rewrite Z.land_ones, Z.shiftr_div_pow2 by lia. }
  f_equal; [|f_equal; [|f_equal; [|f_equal]]].
  - apply Hb; [lia|]. change (2 ^ 24) with 16777216.
    destruct (Z.leb_spec 2147483648 u); Z.div_mod_to_equations; lia.
  - apply Hb; [lia|]. change (2 ^ 16) with 65536.
    destruct (Z.leb_spec 2147483648 u); Z.div_mod_to_equations; lia.
  - apply Hb; [lia|]. change (2 ^ 8) with 256.
    destruct (Z.leb_spec 2147483648 u); Z.div_mod_to_equations; lia.
  - apply byte_of_Z_land. change 255 with (Z.ones 8).
    rewrite Z.land_ones by lia. change (2 ^ 8) with 256.
    destruct (Z.leb_spec 2147483648 u); Z.div_mod_to_equations; lia.
Qed.

End Decode.

(** ** What a receive that returns has done *)

Section Receive.

Lemma recv_int_any (s : ALuxtronik) (buf : list byte) :
  _reader s = Some buf -> (4 <= length buf)%nat ->
  exists v,
    _recv_int s
    = (Ok v, log [EvRecv (firstn 4 buf)] (set_reader (Some (skipn 4 buf)) s)).
Proof.
  intros Hr Hlen. unfold _recv_int, bind, readexactly. rewrite Hr.
  replace (4 <=? length buf)%nat with true
    by (symmetry; apply Nat.leb_le; assumption).
  destruct (unpack_i_block (firstn 4 buf)) as [v Hv].
  { rewrite length_firstn. lia. }
  exists v. unfold lift, ret. now rewrite Hv.
Qed.



(** The element loop, once it has returned on a session with a reader: it
    has decoded exactly [turns] values from the head of the stream. *)
Lemma recv_elements_inv (turns : nat) :
  forall (data data' : list Z) (s s' : ALuxtronik) (buf : list byte),
    recv_elements turns data s = (Ok data', s') ->
    _reader s = Some buf ->
    exists more rest,
      data' = data ++ more /\ length more = turns /\ Forall int32 more /\
      buf = wire more ++ rest /\
      s' = log (recvs more) (set_reader (Some rest) s).
Proof.
  induction turns as [|turns IH]; intros data data' s s' buf Hrun Hb.
  - injection Hrun as <- <-. exists [], buf.
    rewrite app_nil_r, log_nil, (set_reader_same s _ Hb).
    repeat split. constructor.
  - cbn [recv_elements] in Hrun.
    unfold bind at 1, try_except_struct_error, bind at 1 in Hrun.
    pose proof (recv_int_never_struct_error s) as Hnever.
    destruct (_recv_int s) as [[v|e] s1] eqn:E.
    + unfold ret at 1 in Hrun.
      destruct (recv_int_inv _ _ _ E) as (b & rest1 & Hr & Hlen & Hv & ->).
      pose proof (unpack_i_int32 b v Hv) as Hv32.
      pose proof (be32_unpack_i b v Hv) as Hb32. subst b.
      rewrite Hr in Hb. injection Hb as <-.
      destruct (IH _ _ _ _ rest1 Hrun eq_refl)
        as (more & rest & -> & Hm & Hall & -> & ->).
      exists (v :: more), rest. rewrite <- !app_assoc.
      split; [reflexivity|]. split; [simpl; congruence|].
      split; [now constructor|].
      split; [reflexivity|]. session_norm. reflexivity.
    + destruct e; cbn [fst] in Hnever; try discriminate.
      now contradiction Hnever.
Qed.

End Receive.


(** ** What an array read that returns has done *)

Section ArrayInversion.

Lemma read_parameters_takes
    (s : ALuxtronik) (w : StreamWriter) (t : Transport)
    (echo len : Z) (data : list Z) (rest : list byte) :
  _writer s = Some w -> after_send (transport s) = Some t ->
  _reader s = Some (wire (echo :: len :: data) ++ rest) ->
  Forall int32 (echo :: len :: data) ->
  length data = range_turns 0 len ->
  _read_parameters s
  = (Ok tt,
     log (EvSend (wire [3003; 0]) :: recvs (echo :: len :: data)
            ++ [EvParametersParse data])
       (set_transport t (set_reader (Some rest) s))).
Proof.
  intros Hw Ht Hr Hall Hlen.
  inversion Hall as [|? ? He Hall1]; subst.
  inversion Hall1 as [|? ? Hn Hd]; subst.
  rewrite !wire_cons, <- !app_assoc in Hr.
  unfold _read_parameters.
  unfold bind at 1. rewrite (send_ints_takes s _ _ w t Hw Ht pack_3003).
  recv_step echo. recv_step len.
  unfold bind at 1. rewrite <- Hlen.
  rewrite (recv_elements_full data [] _ rest Hd) by reflexivity.
  unfold parameters_parse, emit, ret. session_norm. reflexivity.
Qed.

Lemma read_calculations_takes
    (s : ALuxtronik) (w : StreamWriter) (t : Transport)
    (echo stat len : Z) (data : list Z) (rest : list byte) :
  _writer s = Some w -> after_send (transport s) = Some t ->
  _reader s = Some (wire (echo :: stat :: len :: data) ++ rest) ->
  Forall int32 (echo :: stat :: len :: data) ->
  length data = range_turns 0 len ->
  _read_calculations s
  = (Ok tt,
     log (EvSend (wire [3004; 0]) :: recvs (echo :: stat :: len :: data)
            ++ [EvCalculationsParse data])
       (set_transport t (set_reader (Some rest) s))).
Proof.
  intros Hw Ht Hr Hall Hlen.
  inversion Hall as [|? ? He Hall1]; subst.
  inversion Hall1 as [|? ? Hs Hall2]; subst.
  inversion Hall2 as [|? ? Hn Hd]; subst.
  rewrite !wire_cons, <- !app_assoc in Hr.
  unfold _read_calculations.
  unfold bind at 1. rewrite (send_ints_takes s _ _ w t Hw Ht pack_3004).
  recv_step echo. recv_step stat. recv_step len.
  unfold bind at 1. rewrite <- Hlen.
  rewrite (recv_elements_full data [] _ rest Hd) by reflexivity.
  unfold calculations_parse, emit, ret. session_norm. reflexivity.
Qed.

Lemma read_parameters_inv (s s' : ALuxtronik) :
  _read_parameters s = (Ok tt, s') ->
  exists w t echo len data rest,
    _writer s = Some w /\
    after_send (transport s) = Some t /\
    _reader s = Some (wire (echo :: len :: data) ++ rest) /\
    Forall int32 (echo :: len :: data) /\
    length data = range_turns 0 len /\
    s' = log (EvSend (wire [3003; 0]) :: recvs (echo :: len :: data)
                ++ [EvParametersParse data])
           (set_transport t (set_reader (Some rest) s)).
Proof.
  unfold _read_parameters. intros Hrun.
  unfold bind at 1 in Hrun.
  destruct (_send_ints [PyInt 3003; PyInt 0] s) as [[[]|] s1] eqn:E1;
    [|discriminate].
  destruct (send_ints_inv _ _ _ E1) as (d & w & t & Hd & Hw & Ht & ->).
  rewrite pack_3003 in Hd. injection Hd as <-.
  unfold bind at 1 in Hrun.
  destruct (_recv_int _) as [[echo|] s2] eqn:E2 in Hrun; [|discriminate].
  destruct (recv_int_inv _ _ _ E2) as (b1 & r1 & Hr1 & _ & Hv1 & ->).
  pose proof (unpack_i_int32 _ _ Hv1) as Hi1.
  apply be32_unpack_i in Hv1. subst b1.
  unfold bind at 1 in Hrun.
  destruct (_recv_int _) as [[len|] s3] eqn:E3 in Hrun; [|discriminate].
  destruct (recv_int_inv _ _ _ E3) as (b2 & r2 & Hr2 & _ & Hv2 & ->).
  pose proof (unpack_i_int32 _ _ Hv2) as Hi2.
  apply be32_unpack_i in Hv2. subst b2.
  cbn [_reader log set_reader set_transport] in Hr1, Hr2.
  injection Hr2 as ->.
  unfold bind at 1 in Hrun.
  destruct (recv_elements _ _ _) as [[data|] s4] eqn:E4 in Hrun;
    [|discriminate].
  destruct (recv_elements_inv _ _ _ _ _ r2 E4 eq_refl)
    as (more & rest & -> & Hm & Hall & -> & ->).
  unfold parameters_parse, emit in Hrun. injection Hrun as <-.
  exists w, t, echo, len, more, rest. rewrite !wire_cons, <- !app_assoc.
  split; [exact Hw|]. split; [exact Ht|]. split; [exact Hr1|].
  split; [now repeat constructor|]. split; [exact Hm|].
  session_norm. reflexivity.
Qed.

Lemma read_calculations_inv (s s' : ALuxtronik) :
  _read_calculations s = (Ok tt, s') ->
  exists w t echo stat len data rest,
    _writer s = Some w /\
    after_send (transport s) = Some t /\
    _reader s = Some (wire (echo :: stat :: len :: data) ++ rest) /\
    Forall int32 (echo :: stat :: len :: data) /\
    length data = range_turns 0 len /\
    s' = log (EvSend (wire [3004; 0]) :: recvs (echo :: stat :: len :: data)
                ++ [EvCalculationsParse data])
           (set_transport t (set_reader (Some rest) s)).
Proof.
  unfold _read_calculations. intros Hrun.
  unfold bind at 1 in Hrun.
  destruct (_send_ints [PyInt 3004; PyInt 0] s) as [[[]|] s1] eqn:E1;
    [|discriminate].
  destruct (send_ints_inv _ _ _ E1) as (d & w & t & Hd & Hw & Ht & ->).
  rewrite pack_3004 in Hd. injection Hd as <-.
  unfold bind at 1 in Hrun.
  destruct (_recv_int _) as [[echo|] s2] eqn:E2 in Hrun; [|discriminate].
  destruct (recv_int_inv _ _ _ E2) as (b1 & r1 & Hr1 & _ & Hv1 & ->).
  pose proof (unpack_i_int32 _ _ Hv1) as Hi1.
  apply be32_unpack_i in Hv1. subst b1.
  unfold bind at 1 in Hrun.
  destruct (_recv_int _) as [[stat|] s3] eqn:E3 in Hrun; [|discriminate].
  destruct (recv_int_inv _ _ _ E3) as (b2 & r2 & Hr2 & _ & Hv2 & ->).
  pose proof (unpack_i_int32 _ _ Hv2) as Hi2.
  apply be32_unpack_i in Hv2. subst b2.
  unfold bind at 1 in Hrun.
  destruct (_recv_int _) as [[len|] s4] eqn:E4 in Hrun; [|discriminate].
  destruct (recv_int_inv _ _ _ E4) as (b3 & r3 & Hr3 & _ & Hv3 & ->).
  pose proof (unpack_i_int32 _ _ Hv3) as Hi3.
  apply be32_unpack_i in Hv3. subst b3.
  cbn [_reader log set_reader set_transport] in Hr1, Hr2, Hr3.
  injection Hr2 as ->. injection Hr3 as ->.
  unfold bind at 1 in Hrun.
  destruct (recv_elements _ _ _) as [[data|] s5] eqn:E5 in Hrun;
    [|discriminate].
  destruct (recv_elements_inv _ _ _ _ _ r3 E5 eq_refl)
    as (more & rest & -> & Hm & Hall & -> & ->).
  unfold calculations_parse, emit in Hrun. injection Hrun as <-.
  exists w, t, echo, stat, len, more, rest.
  rewrite !wire_cons, <- !app_assoc.
  split; [exact Hw|]. split; [exact Ht|]. split; [exact Hr1|].
  split; [now repeat constructor|]. split; [exact Hm|].
  session_norm. reflexivity.
Qed.

End ArrayInversion.

(** ** Which exceptions a coroutine can raise *)

Section Guarantee.

Variable I : ALuxtronik -> Prop.
Variable E : PyExc -> Prop.

Hypothesis I_log : forall s evs, I s -> I (log evs s).
Hypothesis I_consume :
  forall s buf r, I s -> _reader s = Some buf -> I (set_reader (Some r) s).
Hypothesis E_end_of_stream : E IncompleteReadError.
Hypothesis E_no_reader : forall s, I s -> _reader s = None -> E AttributeError.
Hypothesis E_no_writer : forall s, I s -> _writer s = None -> E AttributeError.
Hypothesis I_taken :
  forall s t, I s -> after_send (transport s) = Some t -> I (set_transport t s).
Hypothesis I_breaks :
  forall s exc, I s -> transport s = Breaks O exc ->
    I (set_transport (Lost exc) s).
Hypothesis E_reset :
  forall s exc, I s -> transport s = Breaks O exc -> E ConnectionResetError.
Hypothesis E_lost :
  forall s exc, I s -> transport s = Lost exc -> E (os_exception exc).

Lemma guarantee_ret {A : Type} (a : A) : guarantee I E (ret a).
Proof. intros s Hs. split; [exact Hs|]. intros e. discriminate. Qed.

Lemma guarantee_bind {A B : Type} (m : M A) (k : A -> M B) :
  guarantee I E m -> (forall a, guarantee I E (k a)) ->
  guarantee I E (bind m k).
Proof.
  intros Hm Hk s Hs. unfold bind. destruct (Hm s Hs) as [Hi He].
  destruct (m s) as [[a|e] s1]; cbn [fst snd] in *.
  - now apply Hk.
  - split; [exact Hi|]. intros e' [= <-]. now apply He.
Qed.

Lemma guarantee_try {A : Type} (body handler : M A) :
  guarantee I E body -> guarantee I E handler ->
  guarantee I E (try_except_struct_error body handler).
Proof.
  intros Hb Hh s Hs. unfold try_except_struct_error.
  destruct (Hb s Hs) as [Hi He].
  destruct (body s) as [[a|[]] s1]; cbn [fst snd] in *;
    try (split; [exact Hi|]; intros e' [= <-]; now apply He).
  (* struct.error: the handler takes over *)
  now apply Hh.
Qed.

Lemma guarantee_emit (e : Event) : guarantee I E (emit e).
Proof.
  intros s Hs. split; [now apply I_log|]. intros e'. discriminate.
Qed.

Lemma guarantee_recv_int : guarantee I E _recv_int.
Proof.
  intros s Hs. unfold _recv_int, bind, readexactly.
  destruct (_reader s) as [buf|] eqn:Hr.
  - destruct (4 <=? length buf)%nat eqn:Hlen.
    + apply Nat.leb_le in Hlen.
      destruct (unpack_i_block (firstn 4 buf)) as [v Hv].
      { rewrite length_firstn. lia. }
      unfold lift, ret. rewrite Hv. cbn [fst snd]. split.
      * apply I_log. now apply (I_consume s buf).
      * intros e. discriminate.
    + cbn [fst snd]. split; [now apply (I_consume s buf)|].
      now intros e [= <-].
  - cbn [fst snd]. split; [exact Hs|]. intros e [= <-].
    now apply (E_no_reader s).
Qed.

Lemma guarantee_send_ints (ints : list PyVal) :
  (forall e, pack ints = Raise e -> E e) -> guarantee I E (_send_ints ints).
Proof.
  intros Hp s Hs. rewrite send_ints_run.
  destruct (pack ints) as [data|e0].
  - destruct (_writer s) as [w|] eqn:Hw; cbn [fst snd].
    + unfold writer_drain. cbn [_writer transport log]. rewrite Hw.
      destruct (transport s) as [|[|after] exc|exc] eqn:Ht; cbn [fst snd].
      * split; [now apply I_log|]. intros e. discriminate.
      * split.
        -- apply I_breaks; [now apply I_log|exact Ht].
        -- intros e [= <-]. exact (E_reset s exc Hs Ht).
      * split; [|intros e; discriminate].
        apply I_taken; [now apply I_log|].
        cbn [transport log]. now rewrite Ht.
      * split; [now apply I_log|]. intros e [= <-].
        exact (E_lost s exc Hs Ht).
    + split; [exact Hs|]. intros e [= <-]. now apply (E_no_writer s).
  - cbn [fst snd]. split; [exact Hs|]. intros e [= <-]. now apply Hp.
Qed.

Lemma guarantee_recv_elements (turns : nat) :
  forall data, guarantee I E (recv_elements turns data).
Proof.
  induction turns as [|turns IH]; intros data; cbn [recv_elements].
  - apply guarantee_ret.
  - apply guarantee_bind; [|intros; apply IH].
    apply guarantee_try; [|apply guarantee_ret].
    apply guarantee_bind; [apply guarantee_recv_int|].
    intros; apply guarantee_ret.
Qed.

Lemma guarantee_read : guarantee I E _read.
Proof.
  unfold _read, _read_parameters, _read_calculations,
    parameters_parse, calculations_parse.
  repeat first
    [ apply guarantee_send_ints; intros e; discriminate
    | apply guarantee_recv_int
    | apply guarantee_recv_elements
    | apply guarantee_emit
    | apply guarantee_bind; [|intros] ].
Qed.

Lemma guarantee_write_items (items : list (PyVal * PyVal)) :
  E StructError -> guarantee I E (write_items items).
Proof.
  intros Hse. induction items as [|[index value] items IH];
    cbn [write_items].
  - apply guarantee_ret.
  - destruct (negb (isinstance_int index) || negb (isinstance_int value)).
    + apply guarantee_bind; [apply guarantee_emit|]. intros; apply IH.
    + apply guarantee_bind.
      { apply guarantee_send_ints. intros e He.
        now rewrite (pack_raises_struct_error _ _ He). }
      intros _. apply guarantee_bind; [apply guarantee_recv_int|].
      intros _. apply guarantee_bind; [apply guarantee_recv_int|].
      intros _. exact IH.
Qed.

Lemma guarantee_cycle (write_first : bool) :
  (write_first = true -> E StructError) ->
  (forall s, I s -> I (set_queue [] s)) ->
  guarantee I E (_read_after_write write_first).
Proof.
  intros Hse Hq. unfold _read_after_write.
  apply guarantee_bind; [|intros; apply guarantee_read].
  destruct write_first.
  - apply guarantee_bind; [|intros; apply guarantee_emit].
    intros s Hs. unfold _write, flush_queue, bind.
    destruct (guarantee_write_items (queue s) (Hse eq_refl) s Hs) as [Hi He].
    destruct (write_items (queue s) s) as [[[]|e] s1]; cbn [fst snd] in *.
    + split; [now apply Hq|]. intros e. discriminate.
    + split; [exact Hi|]. intros e' [= <-]. now apply He.
  - apply guarantee_ret.
Qed.

End Guarantee.

Section OpenConnection.

Lemma is_open_log (s : ALuxtronik) (evs : list Event) :
  is_open s -> is_open (log evs s).
Proof. intros H. exact H. Qed.

Lemma is_open_consume (s : ALuxtronik) (buf r : list byte) :
  is_open s -> _reader s = Some buf -> is_open (set_reader (Some r) s).
Proof. intros [_ Hw] _. split; [now exists r|exact Hw]. Qed.

Lemma is_open_set_transport (s : ALuxtronik) (t : Transport) :
  is_open s -> is_open (set_transport t s).
Proof. intros H. exact H. Qed.

(** While the transport is up, a cycle leaves it up: only [drain] changes
    the state of the transport, and it changes nothing on a transport that
    takes what is written. *)
Lemma cycle_keeps_transport_up (write_first : bool) (s : ALuxtronik) :
  transport s = Up -> transport (snd (_read_after_write write_first s)) = Up.
Proof.
  intros Hup.
  apply (guarantee_cycle (fun s0 => transport s0 = Up) (fun _ => True));
    try easy.
  - intros s0 t H Ht. rewrite H in Ht. now injection Ht as <-.
  - intros s0 exc H Ht. congruence.
Qed.

(** On a transport that stays up, an open connection stays open through a
    cycle, which can then only fail at the end of the stream or, when it
    writes, on an entry that does not pack. *)
Lemma cycle_on_steady_transport (write_first : bool) :
  guarantee (fun s => is_open s /\ transport s = Up)
    (fun e => e = IncompleteReadError
              \/ (write_first = true /\ e = StructError))
    (_read_after_write write_first).
Proof.
  apply guarantee_cycle.
  - intros s evs H. exact H.
  - intros s buf r [H Hup] Hb. split; [|exact Hup].
    exact (is_open_consume s buf r H Hb).
  - now left.
  - intros s [[[buf Hb] _] _] Hn. congruence.
  - intros s [[_ [w Hw]] _] Hn. congruence.
  - intros s t [H Hup] Ht. rewrite Hup in Ht. injection Ht as <-.
    now split.
  - intros s exc [_ Hup] Ht. congruence.
  - intros s exc [_ Hup] Ht. congruence.
  - intros s exc [_ Hup] Ht. congruence.
  - intros ->. now right.
  - intros s H. exact H.
Qed.

End OpenConnection.

(** ** The write loop, piece by piece *)

Section WriteLoop.

Lemma write_items_app (xs ys : list (PyVal * PyVal)) (s : ALuxtronik) :
  write_items (xs ++ ys) s = (write_items xs ;; write_items ys) s.
Proof.
  revert s. induction xs as [|[index value] xs IH]; intros s.
  - reflexivity.
  - cbn [app write_items]. unfold bind in IH |- *.
    destruct (negb (isinstance_int index) || negb (isinstance_int value)).
    + unfold emit. apply IH.
    + destruct (_send_ints _ s) as [[[]|e] s1]; [|reflexivity].
      destruct (_recv_int s1) as [[cmd|e] s2]; [|reflexivity].
      destruct (_recv_int s2) as [[val|e] s3]; [|reflexivity].
      apply IH.
Qed.

Lemma skipn_8 (buf : list byte) (n : nat) :
  skipn (8 * n) (skipn 4 (skipn 4 buf)) = skipn (8 * S n) buf.
Proof. rewrite !skipn_skipn. f_equal. lia. Qed.

(** Whatever the controller answers, eight bytes per frame let the loop
    go through. *)
Lemma write_items_any_answer (w : StreamWriter) (items : list (PyVal * PyVal)) :
  forall (s : ALuxtronik) (buf : list byte),
    _writer s = Some w -> transport s = Up ->
    Forall packable (filter well_formed items) ->
    _reader s = Some buf ->
    (8 * length (filter well_formed items) <= length buf)%nat ->
    exists evs,
      write_items items s
      = (Ok tt,
         log evs
           (set_reader
              (Some (skipn (8 * length (filter well_formed items)) buf)) s))
      /\ map Ok (sent evs) = map frame_of (filter well_formed items).
Proof.
  induction items as [|[index value] items IH];
    intros s buf Hw Hup Hp Hr Hlen.
  - exists []. cbn. unfold ret.
    now rewrite log_nil, (set_reader_same s _ Hr).
  - cbn [write_items filter] in *. rewrite skip_test.
    destruct (well_formed (index, value)) eqn:Hwf; cbn [negb].
    + inversion Hp as [|? ? [data Hd] Hp']; subst.
      cbn [length] in Hlen.
      unfold bind at 1. unfold frame_of in Hd; cbn [fst snd] in Hd.
      rewrite (send_ints_ok s _ _ w Hw Hup Hd).
      unfold bind at 1.
      destruct (recv_int_any (log [EvSend data] s) buf Hr) as [cmd Hc];
        [lia|]. rewrite Hc.
      unfold bind at 1.
      destruct (recv_int_any
                  (log [EvRecv (firstn 4 buf)]
                     (set_reader (Some (skipn 4 buf)) (log [EvSend data] s)))
                  (skipn 4 buf) eq_refl) as [val Hv];
        [rewrite length_skipn; lia|]. rewrite Hv.
      assert (Hlen' : (8 * length (filter well_formed items)
                       <= length (skipn 4 (skipn 4 buf)))%nat)
        by (rewrite !length_skipn; lia).
      match goal with
      | |- context [write_items items ?st] =>
          destruct (IH st (skipn 4 (skipn 4 buf)) Hw Hup Hp' eq_refl Hlen')
            as (evs & Hrun & Hs)
      end.
      rewrite Hrun. rewrite skipn_8.
      exists (EvSend data :: EvRecv (firstn 4 buf)
                :: EvRecv (firstn 4 (skipn 4 buf)) :: evs).
      split.
      * f_equal. unfold log, set_reader; cbn.
        now rewrite <- !app_assoc.
      * cbn [sent map]. unfold frame_of at 1; cbn [fst snd].
        now rewrite Hd, Hs.
    + unfold bind at 1, emit.
      destruct (IH (log [EvWarning index value] s) buf Hw Hup Hp Hr Hlen)
        as (evs & Hrun & Hs).
      rewrite Hrun. exists (EvWarning index value :: evs). split.
      * f_equal. unfold log, set_reader; cbn. now rewrite <- app_assoc.
      * exact Hs.
Qed.

(** A cycle never touches the writer handle. *)
Lemma cycle_keeps_writer (write_first : bool) (s : ALuxtronik) :
  _writer (snd (_read_after_write write_first s)) = _writer s.
Proof.
  unfold _read_after_write, bind at 1.
  destruct write_first.
  - unfold bind at 1, _write, flush_queue, bind at 1.
    destruct (write_items_emits_no_3003 (queue s) s) as (_ & Hw & _).
    destruct (write_items (queue s) s) as [[[]|e] s1]; cbn [fst snd] in *;
      [|exact Hw].
    unfold emit.
    destruct (read_emits_no_3002
                (log [EvSleep WAIT_TIME_AFTER_PARAMETER_WRITE]
                   (set_queue [] s1))) as (_ & Hw2 & _).
    rewrite Hw2. exact Hw.
  - unfold ret. now destruct (read_emits_no_3002 s) as (_ & Hw & _).
Qed.

End WriteLoop.

(** ** Where an exception leaves the session *)

Section RaisePost.

Variable Q : PyExc -> ALuxtronik -> Prop.

Hypothesis Q_short : forall s, Q IncompleteReadError (set_reader (Some []) s).
Hypothesis Q_attribute : forall s, Q AttributeError s.
Hypothesis Q_struct : forall s, Q StructError s.
Hypothesis Q_reset : forall s, Q ConnectionResetError s.
Hypothesis Q_lost : forall exc s, Q (os_exception exc) s.

Lemma raise_post_bind {A B : Type} (m : M A) (k : A -> M B) :
  raise_post Q m -> (forall a, raise_post Q (k a)) -> raise_post Q (bind m k).
Proof.
  intros Hm Hk s e. unfold bind. specialize (Hm s).
  destruct (m s) as [[a|e0] s1]; cbn [fst snd] in *.
  - apply Hk.
  - intros [= <-]. now apply Hm.
Qed.

Lemma raise_post_ok {A : Type} (m : M A) :
  (forall s, exists a, fst (m s) = Ok a) -> raise_post Q m.
Proof. intros H s e He. destruct (H s) as [a Ha]. congruence. Qed.

Lemma raise_post_recv_int : raise_post Q _recv_int.
Proof.
  intros s e. unfold _recv_int, bind, readexactly.
  destruct (_reader s) as [buf|].
  - destruct (4 <=? length buf)%nat eqn:Hlen.
    + apply Nat.leb_le in Hlen.
      destruct (unpack_i_block (firstn 4 buf)) as [v Hv].
      { rewrite length_firstn. lia. }
      unfold lift, ret. rewrite Hv. discriminate.
    + intros [= <-]. apply Q_short.
  - intros [= <-]. apply Q_attribute.
Qed.

Lemma raise_post_send_ints (ints : list PyVal) : raise_post Q (_send_ints ints).
Proof.
  intros s e. rewrite send_ints_run.
  destruct (pack ints) as [data|e0] eqn:Hp.
  - destruct (_writer s) as [w|] eqn:Hw.
    + unfold writer_drain. cbn [_writer transport log]. rewrite Hw.
      destruct (transport s) as [|[|after] exc|exc]; cbn [fst snd];
        try discriminate; intros [= <-].
      * apply Q_reset.
      * apply Q_lost.
    + intros [= <-]. apply Q_attribute.
  - intros [= <-]. rewrite (pack_raises_struct_error _ _ Hp). apply Q_struct.
Qed.

Lemma raise_post_recv_elements (turns : nat) :
  forall data, raise_post Q (recv_elements turns data).
Proof.
  induction turns as [|turns IH]; intros data; cbn [recv_elements].
  - apply raise_post_ok. intros s. now exists data.
  - apply raise_post_bind; [|intros; apply IH].
    intros s e. unfold try_except_struct_error, bind.
    pose proof (raise_post_recv_int s) as Hr.
    destruct (_recv_int s) as [[v|e0] s1]; cbn [fst snd] in *.
    + discriminate.
    + destruct e0;
        first [ unfold ret; discriminate | intros [= <-]; now apply Hr ].
Qed.

Lemma raise_post_read : raise_post Q _read.
Proof.
  unfold _read, _read_parameters, _read_calculations,
    parameters_parse, calculations_parse.
  repeat first
    [ apply raise_post_send_ints
    | apply raise_post_recv_int
    | apply raise_post_recv_elements
    | apply raise_post_ok; intros s; now exists tt
    | apply raise_post_bind; [|intros] ].
Qed.

Lemma raise_post_write_items (items : list (PyVal * PyVal)) :
  raise_post Q (write_items items).
Proof.
  induction items as [|[index value] items IH]; cbn [write_items].
  - apply raise_post_ok. intros s. now exists tt.
  - destruct (negb (isinstance_int index) || negb (isinstance_int value)).
    + apply raise_post_bind; [|intros; apply IH].
      apply raise_post_ok. intros s. now exists tt.
    + repeat first
        [ apply IH
        | apply raise_post_send_ints
        | apply raise_post_recv_int
        | apply raise_post_bind; [|intros] ].
Qed.

Lemma raise_post_cycle (write_first : bool) :
  raise_post Q (_read_after_write write_first).
Proof.
  unfold _read_after_write.
  apply raise_post_bind; [|intros; apply raise_post_read].
  destruct write_first.
  - apply raise_post_bind.
    + intros s e. unfold _write, flush_queue, bind.
      pose proof (raise_post_write_items (queue s) s) as Hw.
      destruct (write_items (queue s) s) as [[[]|e0] s1]; cbn [fst snd] in *.
      * discriminate.
      * intros [= <-]. now apply Hw.
    + intros _. apply raise_post_ok. intros s. now exists tt.
  - apply raise_post_ok. intros s. now exists tt.
Qed.

End RaisePost.

(** ** The receive helpers, completely *)



(** ** A send is all or nothing *)

(** X3. [_send_ints] either hands the writer one buffer of four bytes per
    value, or raises and leaves the session untouched: [struct.error] when
    a value does not pack (whatever the state of the connection),
    [AttributeError] when the values pack and there is no writer.  Once
    the buffer is handed over, [drain] returns while the transport takes
    it and raises the error of the connection otherwise; the buffer is in
    the trace, whole, in both cases. *)
Theorem send_ints_all_or_nothing (ints : list PyVal) (s : ALuxtronik) :
  (exists data,
      pack ints = Ok data /\ length data = (4 * length ints)%nat /\
      _send_ints ints s
      = match _writer s with
        | Some _ =>
            match transport s with
            | Up => (Ok tt, log [EvSend data] s)
            | Breaks (S after) exc =>
                (Ok tt, set_transport (Breaks after exc) (log [EvSend data] s))
            | Breaks O exc =>
                (Raise ConnectionResetError,
                 set_transport (Lost exc) (log [EvSend data] s))
            | Lost exc => (Raise (os_exception exc), log [EvSend data] s)
            end
        | None => (Raise AttributeError, s)
        end)
  \/ (pack ints = Raise StructError /\
      _send_ints ints s = (Raise StructError, s)).
Proof.
  destruct (pack ints) as [data|e] eqn:Hp.
  - left. exists data. split; [reflexivity|].
    split; [exact (pack_length ints data Hp)|].
    rewrite send_ints_run, Hp.
    destruct (_writer s) as [w|] eqn:Hw; [|reflexivity].
    unfold writer_drain. cbn [_writer transport log]. rewrite Hw.
    now destruct (transport s) as [|[|after] exc|exc].
  - right. pose proof (pack_raises_struct_error ints e Hp) as ->.
    split; [reflexivity|]. now apply send_ints_unpackable.
Qed.

(** ** Arrays *)

(** X4. What one [_send_ints] writes, on a transport that takes it, for a
    list of signed 32-bit integers, the element loop of the array readers reads back as the same list, in
    order, consuming exactly the bytes written. *)
Theorem array_round_trip
    (s r : ALuxtronik) (w : StreamWriter) (vs acc : list Z) (rest : list byte) :
  _writer s = Some w -> transport s = Up -> Forall int32 vs ->
  exists data,
    _send_ints (map PyInt vs) s = (Ok tt, log [EvSend data] s) /\
    recv_elements (length vs) acc (set_reader (Some (data ++ rest)) r)
    = (Ok (acc ++ vs), log (recvs vs) (set_reader (Some rest) r)).
Proof.
  intros Hw Hup Hvs. exists (wire vs). split.
  - apply (send_ints_ok s _ _ w Hw Hup). now apply pack_ints.
  - rewrite (recv_elements_full vs acc _ rest Hvs) by reflexivity.
    reflexivity.
Qed.

Lemma array_round_trip_witness :
  exists data,
    _send_ints (map PyInt [42; -43; 2147483647]) (connected [] [])
    = (Ok tt, log [EvSend data] (connected [] [])) /\
    recv_elements (length [42; -43; 2147483647]%Z) [7]
      (set_reader (Some (data ++ [x01])) (connected [] []))
    = (Ok ([7] ++ [42; -43; 2147483647]),
       log (recvs [42; -43; 2147483647])
         (set_reader (Some [x01]) (connected [] []))).
Proof.
  apply (array_round_trip (connected [] []) (connected [] [])
           (Writer "heatpump" 8889) [42; -43; 2147483647] [7] [x01]);
    first [reflexivity | repeat constructor].
Defined.

(** X5. [_read_parameters] returns exactly when a writer is set, the
    transport takes the request, and the stream starts with an echo, a
    length and as many values as the length declares (none when it is zero
    or negative); it then has sent [(3003, 0)], consumed exactly these
    integers and handed exactly these values to the parameter sink.  In
    every other case it raises. *)
Theorem read_parameters_returns (s s' : ALuxtronik) :
  _read_parameters s = (Ok tt, s') <->
  exists w t echo len data rest,
    _writer s = Some w /\
    after_send (transport s) = Some t /\
    _reader s = Some (wire (echo :: len :: data) ++ rest) /\
    Forall int32 (echo :: len :: data) /\
    length data = range_turns 0 len /\
    s' = log (EvSend (wire [3003; 0]) :: recvs (echo :: len :: data)
                ++ [EvParametersParse data])
           (set_transport t (set_reader (Some rest) s)).
Proof.
  split; [apply read_parameters_inv|].
  intros (w & t & echo & len & data & rest & Hw & Ht & Hr & Hall & Hlen & ->).
  now apply (read_parameters_takes s w t echo len data rest).
Qed.

(** X6. [_read_calculations] returns exactly when a writer is set, the
    transport takes the request, and the stream starts with an echo, a
    status word, a length and as many values as the length declares; it
    then has sent [(3004, 0)], consumed exactly these integers and handed
    exactly these values to the calculations sink. *)
Theorem read_calculations_returns (s s' : ALuxtronik) :
  _read_calculations s = (Ok tt, s') <->
  exists w t echo stat len data rest,
    _writer s = Some w /\
    after_send (transport s) = Some t /\
    _reader s = Some (wire (echo :: stat :: len :: data) ++ rest) /\
    Forall int32 (echo :: stat :: len :: data) /\
    length data = range_turns 0 len /\
    s' = log (EvSend (wire [3004; 0]) :: recvs (echo :: stat :: len :: data)
                ++ [EvCalculationsParse data])
           (set_transport t (set_reader (Some rest) s)).
Proof.
  split; [apply read_calculations_inv|].
  intros (w & t & echo & stat & len & data & rest
          & Hw & Ht & Hr & Hall & Hlen & ->).
  now apply (read_calculations_takes s w t echo stat len data rest).
Qed.

(** ** Cycles *)

(** X7. A read-only cycle never raises [struct.error] and, whether it
    returns or raises, leaves the pending-write queue and the writer handle
    as they were. *)
Theorem read_cycle_keeps_queue (s : ALuxtronik) :
  fst (read s) <> Raise StructError /\
  queue (snd (read s)) = queue s /\
  _writer (snd (read s)) = _writer s.
Proof.
  change (read s) with (_read s). split.
  - intros Hraise.
    assert (Hg : guarantee (fun _ => True) (fun e => e <> StructError) _read).
    { apply guarantee_read; try easy. intros s0 [] _ _; discriminate. }
    destruct (Hg s I) as [_ He]. now apply (He StructError).
  - destruct (read_emits_no_3002 s) as (Hq & Hw & _). now split.
Qed.

(** X8. On an open connection a cycle leaves both handles set, whether it
    returns or raises, and never raises [AttributeError]: what it raises
    comes from the stream, the transport or the packing.  While the
    transport takes what is written, it can only fail because the stream
    ended ([IncompleteReadError]) or, when it writes, because a queue entry
    does not pack ([struct.error]). *)
Theorem cycle_on_open_connection (write_first : bool) (s : ALuxtronik) :
  is_open s ->
  is_open (snd (_read_after_write write_first s)) /\
  fst (_read_after_write write_first s) <> Raise AttributeError /\
  (transport s = Up ->
   forall e, fst (_read_after_write write_first s) = Raise e ->
     e = IncompleteReadError \/ (write_first = true /\ e = StructError)).
Proof.
  intros Hopen.
  assert (Hg : guarantee is_open (fun e => e <> AttributeError)
                 (_read_after_write write_first)).
  { apply guarantee_cycle; try easy.
    - intros s0 buf r H Hb. exact (is_open_consume s0 buf r H Hb).
    - intros s0 [[buf Hb] _] Hn. congruence.
    - intros s0 [_ [w Hw]] Hn. congruence.
    - intros s0 [] _ _; discriminate. }
  destruct (Hg s Hopen) as [Hi He].
  split; [exact Hi|]. split.
  - intros Hraise. now apply (He AttributeError).
  - intros Hup. now apply (cycle_on_steady_transport write_first s).
Qed.

Lemma cycle_on_open_connection_witness :
  is_open (snd (_read_after_write true unanswered_entry)) /\
  fst (_read_after_write true unanswered_entry) <> Raise AttributeError /\
  (transport unanswered_entry = Up ->
   forall e, fst (_read_after_write true unanswered_entry) = Raise e ->
     e = IncompleteReadError \/ (true = true /\ e = StructError)).
Proof.
  apply (cycle_on_open_connection true unanswered_entry).
  split; eexists; reflexivity.
Defined.

(** X9. There is no rollback in the write phase: when an entry of the queue
    does not pack, the frames of the entries before it have been sent (the
    transport taking them) and acknowledged, the exception of the packing leaves [_write], and the
    queue still holds every entry, those already sent included. *)
Theorem write_phase_no_rollback
    (s : ALuxtronik) (w : StreamWriter)
    (done replies : list (Z * Z)) (index value : PyVal)
    (later : list (PyVal * PyVal)) (e : PyExc) (rest : list byte) :
  _writer s = Some w -> transport s = Up ->
  queue s = as_queue done ++ (index, value) :: later ->
  Forall int32_pair done -> Forall int32_pair replies ->
  length replies = length done ->
  well_formed (index, value) = true ->
  frame_of (index, value) = Raise e ->
  _reader s = Some (wire (answers replies) ++ rest) ->
  _write s
  = (Raise e, log (exchange done replies) (set_reader (Some rest) s))
  /\ queue (snd (_write s)) = as_queue done ++ (index, value) :: later.
Proof.
  intros Hw Hup Hq Hd Hr Hlen Hwf Hf Hrd.
  assert (Hrun : _write s
                 = (Raise e,
                    log (exchange done replies) (set_reader (Some rest) s))).
  { unfold _write, flush_queue, bind at 1. rewrite Hq, write_items_app.
    unfold bind at 1.
    rewrite (write_items_ok w done replies s rest Hw Hup Hd Hr Hlen Hrd).
    cbn [write_items]. rewrite skip_test, Hwf. cbn [negb].
    unfold bind at 1. unfold frame_of in Hf; cbn [fst snd] in Hf.
    now rewrite (send_ints_unpackable _ _ e Hf). }
  split; [exact Hrun|]. rewrite Hrun. exact Hq.
Qed.

Lemma write_phase_no_rollback_witness :
  _write (connected (as_queue [(5, 10)] ++ [(PyInt 7, PyInt 4294967296);
                                            (PyInt 9, PyInt 1)])
            (wire (answers [(3002, 10)]) ++ wire [3002; 1]))
  = (Raise StructError,
     log (exchange [(5, 10)] [(3002, 10)])
       (set_reader (Some (wire [3002; 1]))
          (connected (as_queue [(5, 10)] ++ [(PyInt 7, PyInt 4294967296);
                                            (PyInt 9, PyInt 1)])
             (wire (answers [(3002, 10)]) ++ wire [3002; 1]))))
  /\ queue (snd (_write
                   (connected (as_queue [(5, 10)]
                                 ++ [(PyInt 7, PyInt 4294967296);
                                     (PyInt 9, PyInt 1)])
                      (wire (answers [(3002, 10)]) ++ wire [3002; 1]))))
     = as_queue [(5, 10)] ++ [(PyInt 7, PyInt 4294967296); (PyInt 9, PyInt 1)].
Proof.
  apply (write_phase_no_rollback
           (connected (as_queue [(5, 10)] ++ [(PyInt 7, PyInt 4294967296);
                                              (PyInt 9, PyInt 1)])
              (wire (answers [(3002, 10)]) ++ wire [3002; 1]))
           (Writer "heatpump" 8889) [(5, 10)] [(3002, 10)]
           (PyInt 7) (PyInt 4294967296) [(PyInt 9, PyInt 1)]
           StructError (wire [3002; 1]));
    first [reflexivity | repeat constructor].
Defined.

(** X10. The write phase does not look at what the controller answers: on
    an open connection whose transport takes every frame, if every well-formed entry packs and the stream
    holds eight bytes per well-formed entry, whatever they are, [_write]
    returns, has sent exactly the frames of the well-formed entries in
    order, has consumed exactly these eight bytes per entry and has emptied
    the queue. *)
Theorem write_phase_any_answer
    (s : ALuxtronik) (w : StreamWriter) (buf : list byte) :
  _writer s = Some w -> transport s = Up ->
  Forall packable (filter well_formed (queue s)) ->
  _reader s = Some buf ->
  (8 * length (filter well_formed (queue s)) <= length buf)%nat ->
  exists evs,
    _write s
    = (Ok tt,
       set_queue []
         (log evs
            (set_reader
               (Some (skipn (8 * length (filter well_formed (queue s))) buf))
               s)))
    /\ map Ok (sent evs) = map frame_of (filter well_formed (queue s)).
Proof.
  intros Hw Hup Hp Hr Hlen.
  destruct (write_items_any_answer w (queue s) s buf Hw Hup Hp Hr Hlen)
    as (evs & Hrun & Hs).
  exists evs. split; [|exact Hs].
  unfold _write, flush_queue, bind. now rewrite Hrun.
Qed.

Lemma write_phase_any_answer_witness :
  exists evs,
    _write (connected [(PyInt 5, PyInt 10); (PyStr "x", PyInt 1)]
              (wire [-1; 12345; 7]))
    = (Ok tt,
       set_queue []
         (log evs
            (set_reader
               (Some (skipn
                        (8 * length
                               (filter well_formed
                                  (queue
                                     (connected
                                        [(PyInt 5, PyInt 10);
                                         (PyStr "x", PyInt 1)]
                                        (wire [-1; 12345; 7])))))
                        (wire [-1; 12345; 7])))
               (connected [(PyInt 5, PyInt 10); (PyStr "x", PyInt 1)]
                  (wire [-1; 12345; 7])))))
    /\ map Ok (sent evs)
       = map frame_of
           (filter well_formed
              (queue (connected [(PyInt 5, PyInt 10); (PyStr "x", PyInt 1)]
                        (wire [-1; 12345; 7])))).
Proof.
  apply (write_phase_any_answer
           (connected [(PyInt 5, PyInt 10); (PyStr "x", PyInt 1)]
              (wire [-1; 12345; 7]))
           (Writer "heatpump" 8889) (wire [-1; 12345; 7])).
  - reflexivity.
  - reflexivity.
  - repeat constructor. eexists. reflexivity.
  - reflexivity.
  - simpl. lia.
Defined.

(** X11. A cycle never drops the writer handle and, while the transport
    takes what is written, leaves the transport up.  So whatever a cycle
    did on an open connection, returning or raising, the [__aexit__] that
    follows closes the writer once; it returns and clears both handles
    unless the connection has been lost, in which case [wait_closed]
    raises the error of the connection and both handles stay set.  On a
    transport that is up before the cycle, the close returns. *)
Theorem close_after_cycle
    (write_first : bool) (s : ALuxtronik) (w : StreamWriter) :
  _writer s = Some w ->
  let s1 := snd (_read_after_write write_first s) in
  _writer s1 = Some w /\
  __aexit__ s1
  = match transport s1 with
    | Lost exc => (Raise (os_exception exc), log [EvClose] s1)
    | Up | Breaks _ _ =>
        (Ok tt, set_writer None (set_reader None (log [EvClose] s1)))
    end /\
  (transport s = Up ->
   __aexit__ s1
   = (Ok tt, set_writer None (set_reader None (log [EvClose] s1)))).
Proof.
  intros Hw s1.
  assert (Hkept : _writer s1 = Some w)
    by (unfold s1; rewrite cycle_keeps_writer; exact Hw).
  assert (Hrun : __aexit__ s1
                 = match transport s1 with
                   | Lost exc => (Raise (os_exception exc), log [EvClose] s1)
                   | Up | Breaks _ _ =>
                       (Ok tt,
                        set_writer None (set_reader None (log [EvClose] s1)))
                   end).
  { unfold __aexit__, bind, writer_close. rewrite Hkept.
    now destruct (transport s1) as [|after exc|exc]. }
  split; [exact Hkept|]. split; [exact Hrun|].
  intros Hup. rewrite Hrun. unfold s1 at 1.
  now rewrite (cycle_keeps_transport_up write_first s Hup).
Qed.

Lemma close_after_cycle_witness :
  let s1 := snd (_read_after_write false short_parameters) in
  _writer s1 = Some (Writer "heatpump" 8889) /\
  __aexit__ s1
  = match transport s1 with
    | Lost exc => (Raise (os_exception exc), log [EvClose] s1)
    | Up | Breaks _ _ =>
        (Ok tt, set_writer None (set_reader None (log [EvClose] s1)))
    end /\
  (transport short_parameters = Up ->
   __aexit__ s1
   = (Ok tt, set_writer None (set_reader None (log [EvClose] s1)))).
Proof.
  apply (close_after_cycle false short_parameters (Writer "heatpump" 8889)).
  reflexivity.
Defined.

(** X12. The end of the stream is final: when a cycle has raised
    [IncompleteReadError], nothing is left in the reader (bytes short of a
    full field are discarded), and a read cycle started afterwards on the
    same session hands over its [(3003, 0)] request and never returns: it
    raises [IncompleteReadError] again while the transport still takes the
    request (a peer that only closed its sending side), and the error of
    the connection once the transport is lost. *)
Theorem end_of_stream_is_final
    (write_first : bool) (s : ALuxtronik) (w : StreamWriter) :
  _writer s = Some w ->
  fst (_read_after_write write_first s) = Raise IncompleteReadError ->
  let s1 := snd (_read_after_write write_first s) in
  let requested := log [EvSend (wire [3003; 0])] s1 in
  _reader s1 = Some [] /\
  read s1
  = match transport s1 with
    | Up => (Raise IncompleteReadError, requested)
    | Breaks (S after) exc =>
        (Raise IncompleteReadError, set_transport (Breaks after exc) requested)
    | Breaks O exc =>
        (Raise ConnectionResetError, set_transport (Lost exc) requested)
    | Lost exc => (Raise (os_exception exc), requested)
    end /\
  (forall a, fst (read s1) <> Ok a).
Proof.
  intros Hw Hraise s1 requested.
  assert (Hdrained : _reader s1 = Some []).
  { assert (Hshort : forall s0,
               drained IncompleteReadError (set_reader (Some []) s0))
      by (intros s0 _; reflexivity).
    assert (Hattr : forall s0, drained AttributeError s0)
      by (intros s0 H; discriminate H).
    assert (Hstruct : forall s0, drained StructError s0)
      by (intros s0 H; discriminate H).
    assert (Hreset : forall s0, drained ConnectionResetError s0)
      by (intros s0 H; discriminate H).
    assert (Hlost : forall exc s0, drained (os_exception exc) s0)
      by (intros [] s0 H; discriminate H).
    exact (raise_post_cycle drained Hshort Hattr Hstruct Hreset Hlost
             write_first s IncompleteReadError Hraise eq_refl). }
  assert (Hkept : _writer s1 = Some w)
    by (unfold s1; rewrite cycle_keeps_writer; exact Hw).
  assert (Hrun : read s1
                 = match transport s1 with
                   | Up => (Raise IncompleteReadError, requested)
                   | Breaks (S after) exc =>
                       (Raise IncompleteReadError,
                        set_transport (Breaks after exc) requested)
                   | Breaks O exc =>
                       (Raise ConnectionResetError,
                        set_transport (Lost exc) requested)
                   | Lost exc => (Raise (os_exception exc), requested)
                   end).
  { change (read s1) with (_read s1).
    unfold _read, bind at 1, _read_parameters, bind at 1.
    rewrite send_ints_run, pack_3003, Hkept.
    unfold writer_drain. cbn [_writer transport log]. rewrite Hkept.
    fold requested.
    destruct (transport s1) as [|[|after] exc|exc] eqn:Ht;
      try reflexivity.
    - unfold bind at 1.
      rewrite (recv_int_short requested [] Hdrained) by (simpl; lia).
      unfold requested.
      now rewrite set_reader_log, (set_reader_same s1 _ Hdrained).
    - unfold bind at 1.
      rewrite (recv_int_short (set_transport (Breaks after exc) requested)
                 [] Hdrained) by (simpl; lia).
      unfold requested.
      now rewrite set_reader_set_transport, set_reader_log,
        (set_reader_same s1 _ Hdrained). }
  split; [exact Hdrained|]. split; [exact Hrun|].
  intros a. rewrite Hrun.
  now destruct (transport s1) as [|[|after] exc|exc].
Qed.

Lemma end_of_stream_is_final_witness :
  let s1 := snd (_read_after_write true three_bytes) in
  let requested := log [EvSend (wire [3003; 0])] s1 in
  _reader s1 = Some [] /\
  read s1
  = match transport s1 with
    | Up => (Raise IncompleteReadError, requested)
    | Breaks (S after) exc =>
        (Raise IncompleteReadError, set_transport (Breaks after exc) requested)
    | Breaks O exc =>
        (Raise ConnectionResetError, set_transport (Lost exc) requested)
    | Lost exc => (Raise (os_exception exc), requested)
    end /\
  (forall a, fst (read s1) <> Ok a).
Proof.
  apply (end_of_stream_is_final true three_bytes (Writer "heatpump" 8889));
    reflexivity.
Defined.
